(** * The BIRD route-import coordinator of the route module

    A shallow embedding of [modules/route/coordinator/service.go]:
    the setup entry point, the import registry and its replacement
    protocol, the update forwarder [onUpdate], the stream reconnector
    and the import supervisor loop.

    The program talks to collaborators that live outside the file (the
    gRPC client, the BIRD export reader, contexts, the backoff library).
    Every call into a collaborator is recorded as an [Event] in the
    history of the [World], and what the collaborator answers is taken
    from an environment record given to the function.  Go's [error]
    interface is [option error] ([None] is [nil]).

    - Heap objects (connections, contexts, streams, readers, the stream
      variable whose address the holder keeps) are addresses handed out
      by [alloc]; the stream variable is a cell of the [slots] store, so
      that the write of the reconnector is seen by [onUpdate].
    - A [select] takes the case that the environment names; a loop that
      waits on the environment takes a list of what it meets and yields
      no result when the list is used up.
    - Goroutines are a pool of tasks in the world.  The system runs a
      schedule of steps, each a whole [SetupConfig] call (its registry
      part runs under the mutex) or one iteration of the loop of one
      supervisor. *)

From stdpp Require Import base option list gmap strings.
From Stdlib Require Import Lia.

Open Scope string_scope.
Open Scope list_scope.

(** ** Go errors: sentinels, [fmt.Errorf] with [%w], [errors.Join], [errors.Is] *)

Module errors.

(** gRPC status codes used by [SetupConfig]. *)
Inductive Code := InvalidArgument | Internal.

#[local] Unset Elimination Schemes.
Inductive error : Type :=
| Canceled                       (* context.Canceled *)
| DeadlineExceeded               (* context.DeadlineExceeded *)
| errStreamClosed                (* var errStreamClosed = fmt.Errorf("stream closed") *)
| Opaque (n : nat)               (* an error value made by a collaborator *)
| Wrapf (msg : string) (e : error)   (* fmt.Errorf(msg + "%w", e) *)
| Joined (es : list error)       (* the value built by errors.Join *)
| Status (c : Code) (msg : string) (e : error). (* status.Errorf(c, msg + "%v", e) *)

#[local] Set Elimination Schemes.

Definition Code_eqb (a b : Code) : bool :=
  match a, b with
  | InvalidArgument, InvalidArgument | Internal, Internal => true
  | _, _ => false
  end.

(** [err == target] on error values. *)
Fixpoint error_eqb (a b : error) {struct a} : bool :=
  match a, b with
  | Canceled, Canceled => true
  | DeadlineExceeded, DeadlineExceeded => true
  | errStreamClosed, errStreamClosed => true
  | Opaque n, Opaque m => Nat.eqb n m
  | Wrapf s e, Wrapf s' e' => String.eqb s s' && error_eqb e e'
  | Joined es, Joined es' =>
      (fix all2 (l l' : list error) {struct l} : bool :=
         match l, l' with
         | [], [] => true
         | x :: l, y :: l' => error_eqb x y && all2 l l'
         | _, _ => false
         end) es es'
  | Status c s e, Status c' s' e' =>
      Code_eqb c c' && String.eqb s s' && error_eqb e e'
  | _, _ => false
  end.

(** [errors.Is]: compare, then follow [Unwrap() error] of a [%w]
    wrapper or every branch of [Unwrap() []error] of a joined error,
    depth first.  A status error made with [%v] has no [Unwrap]. *)
Fixpoint Is (err target : error) {struct err} : bool :=
  error_eqb err target ||
  match err with
  | Wrapf _ e => Is e target
  | Joined es =>
      (fix any (l : list error) : bool :=
         match l with
         | [] => false
         | x :: l => Is x target || any l
         end) es
  | _ => false
  end.

(** [errors.Join]: nil arguments are discarded; the result is nil when
    nothing is left. *)
Definition Join (errs : list (option error)) : option error :=
  match omap id errs with
  | [] => None
  | es => Some (Joined es)
  end.

(** [errors.Unwrap]. *)
Definition Unwrap (err : error) : option error :=
  match err with
  | Wrapf _ e => Some e
  | _ => None
  end.

End errors.
Import errors.

(** ** Contexts *)

(** What a goroutine sees of a context at one instant: [ctx.Done()] not
    yet closed, or closed with [ctx.Err()] one of the two context
    errors. *)
Inductive CtxState := Active | Cancelled | Expired.

Definition ctx_Err (s : CtxState) : option error :=
  match s with
  | Active => None
  | Cancelled => Some Canceled
  | Expired => Some DeadlineExceeded
  end.

(** ** Data model *)

(** Addresses of heap objects (connections, contexts, streams, readers,
    stream slots). *)
Definition Ptr := nat.

Record instanceKey := mkKey {
  name : string;
  dataplaneInstance : N;       (* uint32 *)
}.

Global Instance instanceKey_eq_dec : EqDecision instanceKey.
Proof. solve_decision. Defined.

Global Instance instanceKey_countable : Countable instanceKey.
Proof.
  refine (inj_countable' (fun k => (name k, dataplaneInstance k))
                         (fun p => mkKey p.1 p.2) _).
  by intros [].
Defined.

(** commonpb.TargetModule *)
Record TargetModule := mkTarget {
  ConfigName : string;
  DataplaneInstance : N;
}.

(** rib.Route, as far as the coordinator looks into it. *)
Record rib_Route := mkRoute {
  Prefix : string;
  ToRemove : bool;
  attrs : nat;
}.

(** routepb.Route: the result of the pure converter
    [routepb.FromRIBRoute(route, isBest)]. *)
Record pb_Route := FromRIBRoute {
  pb_src : rib_Route;
  pb_isBest : bool;
}.

(** routepb.Update *)
Record Update := mkUpdate {
  Target : TargetModule;
  IsDelete : bool;
  Route : pb_Route;
}.

(** One static route of the configuration, by the text that
    [Prefix.String()] and [Nexthop.String()] give. *)
Record StaticRoute := mkStatic {
  sr_Prefix : string;
  sr_Nexthop : string;
}.

(** bird.Config *)
Record bird_Config := mkBird {
  Sockets : list string;
}.

Record Config := mkConfig {
  Routes : list StaticRoute;
  BirdImport : bird_Config;
}.

(** importHolder.  [cancel] and [conn] are nil until lines 211-212
    assign them, and the replacement path tests them against nil. *)
Record importHolder := mkHolder {
  export : Ptr;
  cancel : option Ptr;         (* the context that the CancelFunc cancels *)
  conn : option Ptr;
  currentStream : Ptr;         (* address of the stream slot *)
}.

(** connectivity.State *)
Inductive connectivity := Idle | Connecting | Ready | TransientFailure | Shutdown.

(** ** Events and the world *)

(** The place in the source that cancels a context or closes a
    connection. *)
Inductive Site :=
| AtNoSockets      (* setupConfig, no BIRD sockets *)
| AtStreamFail     (* processBirdImport, initial FeedRIB failed *)
| AtReplace        (* processBirdImport, predecessor found *)
| AtCleanup.       (* runBirdImportLoop, deferred cleanup *)

Inductive Event :=
| EvNewClient (c : Ptr)
| EvInsertRoute (c : Ptr) (t : TargetModule) (prefix nexthop : string)
| EvFlushRoutes (c : Ptr) (t : TargetModule)
| EvFeedRIB (c ctx : Ptr)
| EvSend (stream : Ptr) (u : Update)
| EvCloseAndRecv (stream : Ptr)
| EvCancel (s : Site) (ctx : Ptr)
| EvConnClose (s : Site) (c : Ptr)
| EvLock
| EvUnlock
| EvStore (k : instanceKey) (h : importHolder)   (* m.imports[key] = holder *)
| EvGo (ctx : Ptr) (h : importHolder)            (* go m.runBirdImportLoop(...) *)
| EvRun (reader ctx : Ptr)                       (* holder.export.Run(ctx) *)
| EvSleep (n : nat)          (* time.After(runBackoff.NextBackOff()), n-th interval *)
| EvPanic.

(** ** The supervisor's loop state and the goroutine pool *)

(** The two variables that [runBirdImportLoop] carries from one
    iteration to the next: [streamActive], and [runBackoff] as the
    number of [NextBackOff] calls since its last [Reset] (which fixes
    the interval up to randomisation: 500ms * 1.5^n, capped at a
    minute). *)
Record LoopState := mkLoop {
  streamActive : bool;
  runBackoff : nat;
}.

(** A goroutine started by [go m.runBirdImportLoop(streamCtx, holder,
    client, log)] that has not returned. *)
Record Task := mkTask {
  t_ctx : Ptr;
  t_holder : importHolder;
  t_state : LoopState;
}.

Record World := mkWorld {
  imports : gmap instanceKey importHolder;   (* m.imports *)
  slots : gmap Ptr Ptr;                       (* stream slots: address to handle *)
  next_ptr : Ptr;                             (* allocation frontier *)
  tasks : list Task;                          (* live supervisor goroutines *)
  trace : list Event;                         (* history, oldest first *)
}.

(** NewModuleService *)
Definition NewModuleService : World :=
  {| imports := ∅; slots := ∅; next_ptr := 1; tasks := []; trace := [] |}.

(** A computation over the world. *)
Definition Eff (A : Type) : Type := World -> A * World.

Global Instance Eff_ret : MRet Eff := fun A a w => (a, w).
Global Instance Eff_bind : MBind Eff :=
  fun A B k m w => let (a, w') := m w in k a w'.

Definition emit (e : Event) : Eff unit :=
  fun w => (tt, mkWorld (imports w) (slots w) (next_ptr w) (tasks w)
                        (trace w ++ [e])).

Definition alloc : Eff Ptr :=
  fun w => (next_ptr w, mkWorld (imports w) (slots w) (S (next_ptr w))
                                (tasks w) (trace w)).

(** [*p] for a stream slot; a slot that was never written holds nil. *)
Definition load (p : Ptr) : Eff Ptr :=
  fun w => (default 0 (slots w !! p), w).

(** [*p = s] *)
Definition store (p s : Ptr) : Eff unit :=
  fun w => (tt, mkWorld (imports w) (<[p := s]> (slots w)) (next_ptr w)
                        (tasks w) (trace w)).

(** [m.imports[key]] with the comma-ok form. *)
Definition lookup_import (k : instanceKey) : Eff (option importHolder) :=
  fun w => (imports w !! k, w).

(** [m.imports[key] = holder] *)
Definition store_import (k : instanceKey) (h : importHolder) : Eff unit :=
  fun w => (tt, mkWorld (<[k := h]> (imports w)) (slots w) (next_ptr w)
                        (tasks w) (trace w ++ [EvStore k h])).

(** The [go] statement: the new goroutine starts with
    [streamActive = true] and a freshly reset backoff. *)
Definition go (ctx : Ptr) (h : importHolder) : Eff unit :=
  fun w => (tt, mkWorld (imports w) (slots w) (next_ptr w)
                        (tasks w ++ [mkTask ctx h (mkLoop true 0)])
                        (trace w ++ [EvGo ctx h])).

(** ** The update and flush forwarders (lines 159-191) *)

(** What the collaborators answer during one call of [onUpdate]. *)
Record UpdateEnv := mkUpdateEnv {
  ctxAt : nat -> CtxState;        (* the context, as seen by the select before route idx *)
  sendAt : nat -> option error;   (* result of Send for route idx *)
  closeErr : option error;        (* error of CloseAndRecv *)
}.

Section Forwarders.

Variable holder : importHolder.
Variable target : TargetModule.

Fixpoint onUpdate_from (env : UpdateEnv) (idx : nat) (routes : list rib_Route)
  : Eff (option error) :=
  match routes with
  | [] => mret None
  | r :: rest =>
      match ctx_Err (ctxAt env idx) with
      | Some ctxErr =>
          s ← load (currentStream holder);
          emit (EvCloseAndRecv s);;
          mret (Join [Some ctxErr; closeErr env; Some errStreamClosed])
      | None =>
          s ← load (currentStream holder);
          emit (EvSend s {| Target := target;
                            IsDelete := ToRemove r;
                            Route := FromRIBRoute r false |});;
          match sendAt env idx with
          | Some err =>
              mret (Some (Wrapf ("send BIRD route update for " +:+ Prefix r
                                 +:+ " failed: ") err))
          | None => onUpdate_from env (S idx) rest
          end
      end
  end.

Definition onUpdate (env : UpdateEnv) (routes : list rib_Route)
  : Eff (option error) :=
  onUpdate_from env 0 routes.

Definition onFlush (client : Ptr) (res : option error) : Eff (option error) :=
  emit (EvFlushRoutes client target);;
  match res with
  | Some err => mret (Some (Wrapf "flush BIRD routes failed: " err))
  | None => mret None
  end.

End Forwarders.

(** ** Setup (lines 55-124) and the import registry (lines 142-219) *)

Record SetupConfigRequest := mkRequest {
  req_Instance : N;
  req_ConfigName : string;
  req_Config : string;
}.

(** What the collaborators answer during one [SetupConfig] call. *)
Record SetupEnv := mkSetupEnv {
  unmarshal : string -> Config + error;  (* yaml.Unmarshal over DefaultConfig() *)
  newClient : option error;              (* grpc.NewClient *)
  insertRoute : nat -> option error;     (* InsertRoute for static route idx *)
  flushRoutes : option error;            (* FlushRoutes *)
  feedRIB : option error;                (* the initial FeedRIB *)
}.

Definition processBirdImport (cc : Ptr) (cfg : bird_Config)
    (target : TargetModule) (env : SetupEnv) : Eff (option error) :=
  streamCtx ← alloc;
  emit (EvFeedRIB cc streamCtx);;
  match feedRIB env with
  | Some err =>
      emit (EvCancel AtStreamFail streamCtx);;
      mret (Some (Wrapf "failed to setup initial BIRD import stream: " err))
  | None =>
      stream ← alloc;
      slot ← alloc;
      store slot stream;;
      reader ← alloc;
      let key := mkKey (ConfigName target) (DataplaneInstance target) in
      emit EvLock;;
      old ← lookup_import key;
      match old with
      | Some oldHolder =>
          match cancel oldHolder with
          | Some c => emit (EvCancel AtReplace c)
          | None => mret tt
          end;;
          match conn oldHolder with
          | Some c => emit (EvConnClose AtReplace c)
          | None => mret tt
          end
      | None => mret tt
      end;;
      let holder := {| export := reader; cancel := Some streamCtx;
                       conn := Some cc; currentStream := slot |} in
      store_import key holder;;
      go streamCtx holder;;
      emit EvUnlock;;
      mret None
  end.

Fixpoint insertStatic (cc : Ptr) (target : TargetModule) (env : SetupEnv)
    (idx : nat) (routes : list StaticRoute) : Eff (option error) :=
  match routes with
  | [] => mret None
  | route :: rest =>
      emit (EvInsertRoute cc target (sr_Prefix route) (sr_Nexthop route));;
      match insertRoute env idx with
      | Some err => mret (Some (Wrapf "failed to insert static route: " err))
      | None => insertStatic cc target env (S idx) rest
      end
  end.

Definition setupConfig (instance : N) (configName : string) (config : Config)
    (env : SetupEnv) : Eff (option error) :=
  match newClient env with
  | Some err => mret (Some (Wrapf "failed to connect to the gateway: " err))
  | None =>
      cc ← alloc;
      emit (EvNewClient cc);;
      let target := {| ConfigName := configName;
                       DataplaneInstance := instance |} in
      r ← insertStatic cc target env 0 (Routes config);
      match r with
      | Some err => mret (Some err)
      | None =>
          emit (EvFlushRoutes cc target);;
          match flushRoutes env with
          | Some err =>
              mret (Some (Wrapf ("failed to flush static routes for "
                                 +:+ configName +:+ ": ") err))
          | None =>
              if Nat.eqb (length (Sockets (BirdImport config))) 0 then
                emit (EvConnClose AtNoSockets cc);;
                mret None
              else processBirdImport cc (BirdImport config) target env
          end
      end
  end.

Definition SetupConfig (req : SetupConfigRequest) (env : SetupEnv)
    : Eff (option error) :=
  match unmarshal env (req_Config req) with
  | inr err =>
      mret (Some (Status InvalidArgument
                         "failed to unmarshal configuration: " err))
  | inl cfg =>
      r ← setupConfig (req_Instance req) (req_ConfigName req) cfg env;
      match r with
      | Some err =>
          mret (Some (Status Internal "failed to setup configuration: " err))
      | None => mret None
      end
  end.

(** ** The stream reconnector (lines 319-355) *)

(** The case a [select] statement took.  [ChoseElse] is the remaining
    case: [default] in the preflight of the supervisor, the timer in its
    backoff sleep. *)
Inductive Chosen := ChoseCtx | ChoseQuit | ChoseElse.

(** What wakes the select of [reconnectStream]: the quit channel, the
    context, or a tick, and then what [FeedRIB] answers. *)
Inductive Wake := WakeQuit | WakeCtx | WakeTick (feed : option error).

(** [None] when the wakes are used up: the goroutine stays in the
    select. *)
Fixpoint reconnectStream (client ctx : Ptr) (currentStream : Ptr)
    (wakes : list Wake) : Eff (option bool) :=
  match wakes with
  | [] => mret None
  | WakeQuit :: _ => mret (Some false)
  | WakeCtx :: _ => mret (Some false)
  | WakeTick feed :: rest =>
      emit (EvFeedRIB client ctx);;
      match feed with
      | Some _ => reconnectStream client ctx currentStream rest
      | None =>
          newStream ← alloc;
          store currentStream newStream;;
          mret (Some true)
      end
  end.

(** ** The import supervisor (lines 225-314) *)

(** What the collaborators answer during one iteration of the loop. *)
Record IterEnv := mkIterEnv {
  preflight : Chosen;           (* select of lines 249-257 *)
  connState : connectivity;     (* holder.conn.GetState() *)
  wakes : list Wake;            (* met by reconnectStream, if it is called *)
  runResult : option error;     (* holder.export.Run(ctx) *)
  idle : bool;                  (* time.Since(lastRunAttempt) > backoffResetTimeout *)
  sleep : Chosen;               (* select of lines 299-307 *)
}.

Inductive IterResult :=
| Returned                      (* a return statement was reached *)
| Blocked                       (* waiting in reconnectStream for ever *)
| Again (st : LoopState).       (* the end of the loop body was reached *)

(** The body of the [for] loop. *)
Definition loop_body (ctx : Ptr) (holder : importHolder) (st : LoopState)
    (env : IterEnv) : Eff IterResult :=
  match preflight env with
  | ChoseCtx => mret Returned
  | ChoseQuit => mret Returned
  | ChoseElse =>
      match conn holder with
      | None => emit EvPanic;; mret Returned
      | Some client =>
          match connState env with
          | Shutdown => mret Returned
          | _ =>
              ok ← (if streamActive st then mret (Some true)
                    else reconnectStream client ctx (currentStream holder)
                                         (wakes env));
              match ok with
              | None => mret Blocked
              | Some false => mret Returned
              | Some true =>
                  emit (EvRun (export holder) ctx);;
                  match runResult env with
                  | None => mret Returned
                  | Some err =>
                      if Is err Canceled || Is err DeadlineExceeded
                      then mret Returned
                      else
                        (if negb (Is err errStreamClosed)
                         then s ← load (currentStream holder);
                              emit (EvCloseAndRecv s)
                         else mret tt);;
                        let n := if idle env then 0 else runBackoff st in
                        emit (EvSleep n);;
                        match sleep env with
                        | ChoseCtx => mret Returned
                        | ChoseQuit => mret Returned
                        | ChoseElse => mret (Again (mkLoop false (S n)))
                        end
                  end
              end
          end
      end
  end.

(** The deferred function of lines 231-235. *)
Definition cleanup (holder : importHolder) : Eff unit :=
  match cancel holder with
  | None => emit EvPanic
  | Some c =>
      emit (EvCancel AtCleanup c);;
      match conn holder with
      | None => emit EvPanic
      | Some k => emit (EvConnClose AtCleanup k)
      end
  end.

(** The loop over the iterations that the environment describes.  The
    result is [true] when the function returned, [false] when it is
    still in the loop after the last described iteration. *)
Fixpoint loop (ctx : Ptr) (holder : importHolder) (st : LoopState)
    (envs : list IterEnv) : Eff bool :=
  match envs with
  | [] => mret false
  | env :: rest =>
      r ← loop_body ctx holder st env;
      match r with
      | Returned => mret true
      | Blocked => mret false
      | Again st' => loop ctx holder st' rest
      end
  end.

Definition runBirdImportLoop (ctx : Ptr) (holder : importHolder)
    (envs : list IterEnv) : Eff bool :=
  returned ← loop ctx holder (mkLoop true 0) envs;
  if returned : bool then cleanup holder;; mret true else mret false.

(** ** The coordinator as a concurrent system *)

(** One scheduling step: a [SetupConfig] call, or one iteration of the
    loop of the supervisor goroutine at position [i] of the pool. *)
Inductive Action :=
| ActSetup (req : SetupConfigRequest) (env : SetupEnv)
| ActIter (i : nat) (env : IterEnv).

Definition get_task (i : nat) : Eff (option Task) :=
  fun w => (tasks w !! i, w).

Definition drop_task (i : nat) : Eff unit :=
  fun w => (tt, mkWorld (imports w) (slots w) (next_ptr w) (delete i (tasks w))
                        (trace w)).

Definition set_task (i : nat) (t : Task) : Eff unit :=
  fun w => (tt, mkWorld (imports w) (slots w) (next_ptr w)
                        (<[i := t]> (tasks w)) (trace w)).

(** One iteration of a pooled supervisor.  When the loop returns, the
    deferred cleanup runs and the goroutine is gone; a goroutine that
    waits for ever is dropped from the pool as well. *)
Definition supervise (i : nat) (env : IterEnv) : Eff unit :=
  t ← get_task i;
  match t with
  | None => mret tt
  | Some t =>
      r ← loop_body (t_ctx t) (t_holder t) (t_state t) env;
      match r with
      | Returned => cleanup (t_holder t);; drop_task i
      | Blocked => drop_task i
      | Again st => set_task i (mkTask (t_ctx t) (t_holder t) st)
      end
  end.

Definition act (a : Action) : Eff unit :=
  match a with
  | ActSetup req env => SetupConfig req env;; mret tt
  | ActIter i env => supervise i env
  end.

Definition exec (w : World) (a : Action) : World := (act a w).2.

Definition run (acts : list Action) : World := foldl exec NewModuleService acts.

(** * The vocabulary of the properties *)

(** ** Induction over errors *)

(** The induction principle of [error] that also descends into the
    members of a joined error. *)
Section error_induction.

Variable P : error -> Prop.
Hypothesis HCanceled : P Canceled.
Hypothesis HDeadline : P DeadlineExceeded.
Hypothesis HClosed : P errStreamClosed.
Hypothesis HOpaque : forall n, P (Opaque n).
Hypothesis HWrapf : forall s e, P e -> P (Wrapf s e).
Hypothesis HJoined : forall es, Forall P es -> P (Joined es).
Hypothesis HStatus : forall c s e, P e -> P (Status c s e).

Fixpoint error_nested_ind (e : error) : P e :=
  match e with
  | Canceled => HCanceled
  | DeadlineExceeded => HDeadline
  | errStreamClosed => HClosed
  | Opaque n => HOpaque n
  | Wrapf s e => HWrapf s e (error_nested_ind e)
  | Joined es =>
      HJoined es
        ((fix all (l : list error) : Forall P l :=
            match l with
            | [] => Forall_nil_2 P
            | x :: l => Forall_cons_2 P x l (error_nested_ind x) (all l)
            end) es)
  | Status c s e => HStatus c s e (error_nested_ind e)
  end.

End error_induction.

(** ** Worlds, events and what a call adds to the history *)

(** The world after some more events. *)
Definition add_events (w : World) (evs : list Event) : World :=
  mkWorld (imports w) (slots w) (next_ptr w) (tasks w) (trace w ++ evs).

(** The stream handle that [*holder.currentStream] yields. *)
Definition current (holder : importHolder) (w : World) : Ptr :=
  default 0 (slots w !! currentStream holder).

(** One [Send] per route, in the order of the batch. *)
Definition sends (s : Ptr) (target : TargetModule) (routes : list rib_Route)
    : list Event :=
  map (fun r => EvSend s {| Target := target; IsDelete := ToRemove r;
                            Route := FromRIBRoute r false |}) routes.

(** Unfold the plumbing of [Eff]. *)
Ltac eff_simpl :=
  unfold mbind, mret, Eff_bind, Eff_ret, emit, load, store, alloc; simpl.

(** ** Reconnector and supervisor *)

(** A tick on which [FeedRIB] failed: the only wake after which the
    reconnector keeps waiting. *)
Definition failed_tick (k : Wake) : Prop := exists e, k = WakeTick (Some e).

(** The first wake that is not a failed tick decides the call. *)
Definition decided_by (ws : list Wake) (n : nat) (k : Wake) : Prop :=
  ws !! n = Some k /\ ~ failed_tick k /\ Forall failed_tick (take n ws).

(** The iteration gets as far as calling [holder.export.Run(ctx)], in
    the world [w1]: the preflight select took [default], the connection
    is not in [Shutdown], and the stream is active or the reconnector
    made it so. *)
Definition reaches_run (ctx : Ptr) (holder : importHolder) (st : LoopState)
    (env : IterEnv) (w w1 : World) : Prop :=
  preflight env = ChoseElse /\
  exists client, conn holder = Some client /\
  connState env <> Shutdown /\
  ((streamActive st = true /\ w1 = w) \/
   (streamActive st = false /\
    reconnectStream client ctx (currentStream holder) (wakes env) w
    = (Some true, w1))).

(** [w'] comes from [w] by allocations, slot writes and events that all
    satisfy [P]; the registry and the goroutine pool are as they were. *)
Definition frame (P : Event -> Prop) (w w' : World) : Prop :=
  imports w' = imports w /\ tasks w' = tasks w /\
  next_ptr w <= next_ptr w' /\
  exists evs, trace w' = trace w ++ evs /\ Forall P evs.

(** Bring nested appends to the right-nested form. *)
Ltac app_norm := repeat (progress (rewrite <- ?app_assoc; simpl)).

(** Close a [frame] goal whose end world is given explicitly. *)
Ltac frame_tac :=
  repeat split; simpl; try lia;
  eexists; split;
  [ rewrite <- ?app_assoc; reflexivity
  | repeat first [ apply Forall_nil_2
                 | apply Forall_app_2
                 | apply Forall_replicate
                 | apply Forall_cons_2 ]; done ].

(** The events of the supervisor loop proper. *)
Definition supervisor_event (e : Event) : Prop :=
  match e with
  | EvFeedRIB _ _ | EvRun _ _ | EvCloseAndRecv _ | EvSleep _ => True
  | _ => False
  end.

(** One [InsertRoute] per static route, in the order of the
    configuration. *)
Definition inserts (cc : Ptr) (target : TargetModule)
    (routes : list StaticRoute) : list Event :=
  map (fun r => EvInsertRoute cc target (sr_Prefix r) (sr_Nexthop r)) routes.

(** The events a call has added to the history. *)
Definition emitted (w w' : World) : list Event :=
  drop (length (trace w)) (trace w').

Fixpoint count (p : Event -> bool) (tr : list Event) : nat :=
  match tr with
  | [] => 0
  | e :: tr => (if p e then 1 else 0) + count p tr
  end.

Definition is_flush (e : Event) : bool :=
  match e with EvFlushRoutes _ _ => true | _ => false end.

Definition is_insert (e : Event) : bool :=
  match e with EvInsertRoute _ _ _ _ => true | _ => false end.

(** The signals that the replacement path sends to a predecessor. *)
Definition teardown (old : option importHolder) : list Event :=
  match old with
  | Some oldHolder =>
      match cancel oldHolder with
      | Some c => [EvCancel AtReplace c]
      | None => []
      end ++
      match conn oldHolder with
      | Some k => [EvConnClose AtReplace k]
      | None => []
      end
  | None => []
  end.

(** The holder that [processBirdImport] builds in world [w] over the
    connection [cc]. *)
Definition new_holder (cc : Ptr) (w : World) : importHolder :=
  {| export := next_ptr w + 3; cancel := Some (next_ptr w);
     conn := Some cc; currentStream := next_ptr w + 2 |}.

(** The world after the locked part of [processBirdImport] has run in
    [w] for the key [key] over the connection [cc]. *)
Definition installed (cc : Ptr) (key : instanceKey) (w : World) : World :=
  let holder := new_holder cc w in
  mkWorld (<[key := holder]> (imports w))
    (<[next_ptr w + 2 := next_ptr w + 1]> (slots w))
    (next_ptr w + 4)
    (tasks w ++ [mkTask (next_ptr w) holder (mkLoop true 0)])
    (trace w ++ [EvFeedRIB cc (next_ptr w); EvLock]
       ++ teardown (imports w !! key)
       ++ [EvStore key holder; EvGo (next_ptr w) holder; EvUnlock]).

(** The world when the static routes are in and flushed: the connection
    [cc] was made, every route inserted, one flush issued. *)
Definition after_prelude (instance : N) (configName : string)
    (config : Config) (w : World) : World :=
  let cc := next_ptr w in
  let target := {| ConfigName := configName; DataplaneInstance := instance |} in
  mkWorld (imports w) (slots w) (S (next_ptr w)) (tasks w)
    (trace w ++ [EvNewClient cc] ++ inserts cc target (Routes config)
       ++ [EvFlushRoutes cc target]).

(** The events of a setup that installs nothing, and of the part of a
    setup that precedes the installation. *)
Definition prelude_event (e : Event) : Prop :=
  match e with
  | EvNewClient _ | EvInsertRoute _ _ _ _ | EvFlushRoutes _ _
  | EvFeedRIB _ _ | EvConnClose AtNoSockets _ | EvCancel AtStreamFail _ => True
  | _ => False
  end.

Global Instance Site_eq_dec : EqDecision Site.
Proof. solve_decision. Defined.

Definition is_cancel (s : Site) (c : Ptr) (e : Event) : bool :=
  match e with
  | EvCancel s' c' => bool_decide (s' = s) && Nat.eqb c' c
  | _ => false
  end.

(** How often [cancel] of the context [c] was invoked at site [s]. *)
Definition cancels (s : Site) (c : Ptr) (tr : list Event) : nat :=
  count (is_cancel s c) tr.

Definition is_panic (e : Event) : bool :=
  match e with EvPanic => true | _ => false end.

(** The holder that the latest [m.imports[K] = holder] of the history
    put under [K]. *)
Definition last_store (K : instanceKey) (tr : list Event)
    : option importHolder :=
  foldl (fun acc e =>
           match e with
           | EvStore K' h => if decide (K' = K) then Some h else acc
           | _ => acc
           end) None tr.

(** Events that neither store into the registry, nor cancel at the
    replacement or cleanup sites, nor panic. *)
Definition quiet (e : Event) : Prop :=
  match e with
  | EvStore _ _ | EvPanic | EvCancel AtReplace _ | EvCancel AtCleanup _ => False
  | _ => True
  end.

(** What holds of every world that the coordinator can reach. *)
Record Inv (w : World) : Prop := mkInv {
  registry_latest :
    forall K, imports w !! K = last_store K (trace w);
  holders_wf :
    forall K h, imports w !! K = Some h ->
      exists c k, cancel h = Some c /\ conn h = Some k /\
                  c < next_ptr w /\ cancels AtReplace c (trace w) = 0;
  holders_inj :
    forall K K' h h', imports w !! K = Some h -> imports w !! K' = Some h' ->
      cancel h = cancel h' -> K = K';
  fresh_clean :
    forall c, next_ptr w <= c ->
      cancels AtReplace c (trace w) = 0 /\ cancels AtCleanup c (trace w) = 0;
  replace_once :
    forall c, cancels AtReplace c (trace w) <= 1;
  tasks_wf :
    forall t, t ∈ tasks w ->
      exists c k, cancel (t_holder t) = Some c /\ conn (t_holder t) = Some k /\
                  c < next_ptr w /\ cancels AtCleanup c (trace w) = 0;
  tasks_nodup :
    NoDup ((fun t => cancel (t_holder t)) <$> tasks w);
  cleanup_once :
    forall c, cancels AtCleanup c (trace w) <= 1;
  no_panic :
    count is_panic (trace w) = 0;
}.

(** The world with another pool of goroutines. *)
Definition with_tasks (w : World) (ts : list Task) : World :=
  mkWorld (imports w) (slots w) (next_ptr w) ts (trace w).

(** [h] is the holder of the most recent store under [K] in the
    history [tr]. *)
Definition latest_install (K : instanceKey) (h : importHolder)
    (tr : list Event) : Prop :=
  exists before after,
    tr = before ++ EvStore K h :: after /\
    forall h', EvStore K h' ∉ after.

(** The events of the locked part of an installation. *)
Definition locked_part (key : instanceKey) (old : option importHolder)
    (ctx : Ptr) (h : importHolder) : list Event :=
  [EvLock] ++ teardown old ++ [EvStore key h; EvGo ctx h; EvUnlock].

(** How often [cancel] of the context [c] was invoked, at any site. *)
Definition cancel_calls (c : Ptr) (tr : list Event) : nat :=
  count (fun e => match e with EvCancel _ c' => Nat.eqb c' c | _ => false end)
        tr.

(** ** The outcomes of a setup *)

(** The world after a call has made the connection [next_ptr w] and
    added the events [evs] on it. *)
Definition dialled (w : World) (evs : list Event) : World :=
  mkWorld (imports w) (slots w) (S (next_ptr w)) (tasks w)
    (trace w ++ EvNewClient (next_ptr w) :: evs).

(** The exits of [SetupConfig], each with what it returns and the world
    it leaves, in the order the source reaches them. *)
Inductive SetupOutcome (req : SetupConfigRequest) (env : SetupEnv) (w : World)
    : option error * World -> Prop :=
| OutBadConfig err :
    unmarshal env (req_Config req) = inr err ->
    SetupOutcome req env w
      (Some (Status InvalidArgument "failed to unmarshal configuration: " err),
       w)
| OutNoClient cfg err :
    unmarshal env (req_Config req) = inl cfg ->
    newClient env = Some err ->
    SetupOutcome req env w
      (Some (Status Internal "failed to setup configuration: "
               (Wrapf "failed to connect to the gateway: " err)),
       w)
| OutInsertFailed cfg j r err :
    unmarshal env (req_Config req) = inl cfg ->
    newClient env = None ->
    Routes cfg !! j = Some r ->
    (forall i, i < j -> insertRoute env i = None) ->
    insertRoute env j = Some err ->
    SetupOutcome req env w
      (Some (Status Internal "failed to setup configuration: "
               (Wrapf "failed to insert static route: " err)),
       dialled w (inserts (next_ptr w)
                    (mkTarget (req_ConfigName req) (req_Instance req))
                    (take (S j) (Routes cfg))))
| OutFlushFailed cfg err :
    unmarshal env (req_Config req) = inl cfg ->
    newClient env = None ->
    (forall i, i < length (Routes cfg) -> insertRoute env i = None) ->
    flushRoutes env = Some err ->
    SetupOutcome req env w
      (Some (Status Internal "failed to setup configuration: "
               (Wrapf ("failed to flush static routes for "
                       +:+ req_ConfigName req +:+ ": ") err)),
       dialled w (inserts (next_ptr w)
                    (mkTarget (req_ConfigName req) (req_Instance req))
                    (Routes cfg)
                  ++ [EvFlushRoutes (next_ptr w)
                        (mkTarget (req_ConfigName req) (req_Instance req))]))
| OutStaticOnly cfg :
    unmarshal env (req_Config req) = inl cfg ->
    newClient env = None ->
    (forall i, i < length (Routes cfg) -> insertRoute env i = None) ->
    flushRoutes env = None ->
    Sockets (BirdImport cfg) = [] ->
    SetupOutcome req env w
      (None,
       dialled w (inserts (next_ptr w)
                    (mkTarget (req_ConfigName req) (req_Instance req))
                    (Routes cfg)
                  ++ [EvFlushRoutes (next_ptr w)
                        (mkTarget (req_ConfigName req) (req_Instance req));
                      EvConnClose AtNoSockets (next_ptr w)]))
| OutStreamFailed cfg err :
    unmarshal env (req_Config req) = inl cfg ->
    newClient env = None ->
    (forall i, i < length (Routes cfg) -> insertRoute env i = None) ->
    flushRoutes env = None ->
    Sockets (BirdImport cfg) <> [] ->
    feedRIB env = Some err ->
    SetupOutcome req env w
      (Some (Status Internal "failed to setup configuration: "
               (Wrapf "failed to setup initial BIRD import stream: " err)),
       mkWorld (imports w) (slots w) (S (S (next_ptr w))) (tasks w)
         (trace w ++ EvNewClient (next_ptr w)
            :: inserts (next_ptr w)
                 (mkTarget (req_ConfigName req) (req_Instance req))
                 (Routes cfg)
            ++ [EvFlushRoutes (next_ptr w)
                  (mkTarget (req_ConfigName req) (req_Instance req));
                EvFeedRIB (next_ptr w) (S (next_ptr w));
                EvCancel AtStreamFail (S (next_ptr w))]))
| OutInstalled cfg :
    unmarshal env (req_Config req) = inl cfg ->
    newClient env = None ->
    (forall i, i < length (Routes cfg) -> insertRoute env i = None) ->
    flushRoutes env = None ->
    Sockets (BirdImport cfg) <> [] ->
    feedRIB env = None ->
    SetupOutcome req env w
      (None,
       installed (next_ptr w) (mkKey (req_ConfigName req) (req_Instance req))
         (dialled w (inserts (next_ptr w)
                       (mkTarget (req_ConfigName req) (req_Instance req))
                       (Routes cfg)
                     ++ [EvFlushRoutes (next_ptr w)
                           (mkTarget (req_ConfigName req)
                                     (req_Instance req))]))).

(** The answers under which a setup goes all the way: the
    configuration parses, the gateway client is made, every RPC of the
    static prelude succeeds, there is a BIRD socket to import from and
    the first [FeedRIB] opens the stream. *)
Definition installs (req : SetupConfigRequest) (env : SetupEnv) : Prop :=
  exists cfg,
    unmarshal env (req_Config req) = inl cfg /\
    newClient env = None /\
    (forall i, i < length (Routes cfg) -> insertRoute env i = None) /\
    flushRoutes env = None /\
    Sockets (BirdImport cfg) <> [] /\
    feedRIB env = None.

(** ** Batches of the update forwarder *)

(** The environment of a call as seen from route [n] on. *)
Definition shift_env (n : nat) (env : UpdateEnv) : UpdateEnv :=
  {| ctxAt := fun i => ctxAt env (n + i);
     sendAt := fun i => sendAt env (n + i);
     closeErr := closeErr env |}.

(** The context stays active and every send succeeds for the first [n]
    routes. *)
Definition passes (env : UpdateEnv) (n : nat) : Prop :=
  forall i, i < n -> ctxAt env i = Active /\ sendAt env i = None.

(** ** Iterations of the supervisor *)

(** The environment of an iteration with another result of
    [export.Run]. *)
Definition with_run (env : IterEnv) (r : option error) : IterEnv :=
  {| preflight := preflight env; connState := connState env;
     wakes := wakes env; runResult := r; idle := idle env;
     sleep := sleep env |}.

(** [e'] is [e] under some layers of [fmt.Errorf] with [%w]. *)
Inductive wraps : error -> error -> Prop :=
| wraps_here e : wraps e e
| wraps_more msg e' e : wraps e' e -> wraps (Wrapf msg e') e.

(** An iteration that ends in a retry: the preflight passes, the
    reconnector (if it is needed) gets a stream, the reader fails with
    an error that is not a context error, and the timer ends the
    sleep. *)
Definition retrying (env : IterEnv) : Prop :=
  preflight env = ChoseElse /\
  connState env <> Shutdown /\
  (exists n, decided_by (wakes env) n (WakeTick None)) /\
  (exists err, runResult env = Some err /\
               Is err Canceled = false /\ Is err DeadlineExceeded = false) /\
  sleep env = ChoseElse.

(** The backoff intervals that a run of retries sleeps for, by their
    index since the last reset, from the backoff state [b]. *)
Fixpoint backoff_trace (b : nat) (envs : list IterEnv) : list nat :=
  match envs with
  | [] => []
  | env :: rest =>
      let n := if idle env then 0 else b in
      n :: backoff_trace (S n) rest
  end.

(** The backoff state after a run of retries. *)
Fixpoint backoff_after (b : nat) (envs : list IterEnv) : nat :=
  match envs with
  | [] => b
  | env :: rest => backoff_after (S (if idle env then 0 else b)) rest
  end.

(** The intervals slept for in a history. *)
Definition sleeps (tr : list Event) : list nat :=
  omap (fun e => match e with EvSleep n => Some n | _ => None end) tr.

(** ** The ledger of connections and contexts *)

Definition is_close (s : Site) (k : Ptr) (e : Event) : bool :=
  match e with
  | EvConnClose s' k' => bool_decide (s' = s) && Nat.eqb k' k
  | _ => false
  end.

(** How often [Close] of the connection [k] was invoked at site [s]. *)
Definition closes (s : Site) (k : Ptr) (tr : list Event) : nat :=
  count (is_close s k) tr.

(** How often [Close] of the connection [k] was invoked, at any site. *)
Definition close_calls (k : Ptr) (tr : list Event) : nat :=
  count (fun e => match e with EvConnClose _ k' => Nat.eqb k' k | _ => false end)
        tr.

Definition is_lock (e : Event) : bool :=
  match e with EvLock => true | _ => false end.
Definition is_unlock (e : Event) : bool :=
  match e with EvUnlock => true | _ => false end.
Definition is_store (e : Event) : bool :=
  match e with EvStore _ _ => true | _ => false end.
Definition is_go (e : Event) : bool :=
  match e with EvGo _ _ => true | _ => false end.

(** Events that touch no holder: no lock, store or spawn, no teardown,
    and a cancel or close only of an object that the same call has
    just made (an address in [[lo, hi)]). *)
Definition neutral (lo hi : Ptr) (e : Event) : Prop :=
  match e with
  | EvCancel AtStreamFail c => lo <= c < hi
  | EvConnClose AtNoSockets k => lo <= k < hi
  | EvCancel _ _ | EvConnClose _ _ => False
  | EvLock | EvUnlock | EvStore _ _ | EvGo _ _ | EvPanic => False
  | _ => True
  end.

(** The connection and the context of a holder were made by one setup
    call, the context right after the connection; neither was touched
    by the exits of a setup that installs nothing. *)
Definition paired (h : importHolder) (n : Ptr) (tr : list Event) : Prop :=
  exists k, conn h = Some k /\ cancel h = Some (S k) /\ S k < n /\
            cancels AtStreamFail (S k) tr = 0 /\
            closes AtNoSockets k tr = 0.

Record Ledger (w : World) : Prop := mkLedger {
  ledger_holders :
    forall K h, imports w !! K = Some h -> paired h (next_ptr w) (trace w);
  ledger_tasks :
    forall t, t ∈ tasks w ->
      paired (t_holder t) (next_ptr w) (trace w) /\
      cancel (t_holder t) = Some (t_ctx t);
  ledger_stored :
    forall K h, EvStore K h ∈ trace w -> paired h (next_ptr w) (trace w);
  ledger_fresh :
    forall p s, next_ptr w <= p ->
      cancels s p (trace w) = 0 /\ closes s p (trace w) = 0;
  ledger_pair :
    forall k, closes AtReplace k (trace w) = cancels AtReplace (S k) (trace w) /\
              closes AtCleanup k (trace w) = cancels AtCleanup (S k) (trace w);
  ledger_never :
    forall p, cancels AtNoSockets p (trace w) = 0 /\
              closes AtStreamFail p (trace w) = 0;
  ledger_locks :
    count is_unlock (trace w) = count is_lock (trace w) /\
    count is_store (trace w) = count is_lock (trace w) /\
    count is_go (trace w) = count is_lock (trace w);
  ledger_pool :
    length (tasks w) <= count is_go (trace w);
}.

(** * The DSCP module (package dscp) *)

(** The control-plane component of the DSCP module attaches to the
    shared memory of the dataplane, attaches one agent per NUMA node
    and releases both in [Close].  The calls that it makes on the FFI
    layer, the logger and the service constructor are recorded in the
    order in which they are made; what the collaborators answer comes
    from an environment. *)
Module dscp.

Record Config := mkConfig {
  MemoryPath : string;
  MemoryRequirements : N;       (* datasize.ByteSize *)
  cfg_Endpoint : string;
}.

(** A logger is the list of the fields that [With] has added to it. *)
Definition Logger := list (string * string).

Record DscpModule := mkDscpModule {
  cfg : Config;
  shm : Ptr;
  agents : list Ptr;
  dscpService : Ptr;
  log : Logger;
}.

Inductive Call :=
| CallAttachSharedMemory (path : string)
| CallNumaIndices (shm : Ptr)
| CallDebugw (numa : list N) (size : N)
| CallAgentsAttach (shm : Ptr) (name : string) (numaIndices : list N) (size : N)
| CallNewDscpService (agents : list Ptr)
| CallAgentClose (agent : Ptr)
| CallWarnAgent (numaIdx : nat) (err : error)
| CallDetach (shm : Ptr)
| CallWarnDetach (err : error).

(** What the collaborators answer to [NewDSCPModule]. *)
Record NewEnv := mkNewEnv {
  attachSharedMemory : Ptr + error;   (* ffi.AttachSharedMemory *)
  numaIndices : list N;               (* shm.NumaIndices() *)
  agentsAttach : list Ptr + error;    (* shm.AgentsAttach *)
  newDscpService : Ptr;               (* NewDscpService *)
}.

(** What the collaborators answer to [Close]: the result of
    [agent.Close()] for the agent at each index, and of
    [m.shm.Detach()]. *)
Record CloseEnv := mkCloseEnv {
  agentClose : nat -> option error;
  detach : option error;
}.

(** Lines 21-49. *)
Definition NewDSCPModule (env : NewEnv) (cfg : Config) (log : Logger)
    : (DscpModule + error) * list Call :=
  let log := log ++ [("module", "dscppb.DscpService")] in
  match attachSharedMemory env with
  | inr err => (inr err, [CallAttachSharedMemory (MemoryPath cfg)])
  | inl shm =>
      let numa := numaIndices env in
      match agentsAttach env with
      | inr err =>
          (inr err,
           [CallAttachSharedMemory (MemoryPath cfg);
            CallNumaIndices shm;
            CallDebugw numa (MemoryRequirements cfg);
            CallAgentsAttach shm "dscp" numa (MemoryRequirements cfg)])
      | inl agents =>
          (inl {| cfg := cfg; shm := shm; agents := agents;
                  dscpService := newDscpService env; log := log |},
           [CallAttachSharedMemory (MemoryPath cfg);
            CallNumaIndices shm;
            CallDebugw numa (MemoryRequirements cfg);
            CallAgentsAttach shm "dscp" numa (MemoryRequirements cfg);
            CallNewDscpService agents])
      end
  end.

Definition Name (m : DscpModule) : string := "dscp".

Definition Endpoint (m : DscpModule) : string := cfg_Endpoint (cfg m).

Definition ServicesNames (m : DscpModule) : list string :=
  ["dscppb.DscpService"].

(** The range loop of lines 69-73, from the index [numaIdx] on. *)
Fixpoint closeAgents (env : CloseEnv) (numaIdx : nat) (agents : list Ptr)
    : list Call :=
  match agents with
  | [] => []
  | agent :: rest =>
      CallAgentClose agent
      :: match agentClose env numaIdx with
         | Some err => [CallWarnAgent numaIdx err]
         | None => []
         end
      ++ closeAgents env (S numaIdx) rest
  end.

(** Lines 68-80. *)
Definition Close (env : CloseEnv) (m : DscpModule)
    : option error * list Call :=
  (None,
   closeAgents env 0 (agents m)
   ++ CallDetach (shm m)
   :: match detach env with
      | Some err => [CallWarnDetach err]
      | None => []
      end).

(** The calls that release a resource. *)
Definition is_release (c : Call) : bool :=
  match c with
  | CallAgentClose _ | CallDetach _ => true
  | _ => false
  end.

Definition releases (calls : list Call) : list Call :=
  List.filter is_release calls.

End dscp.

(** ** A worked example: installing, replacing, terminating *)

Module Example.

Definition cfg : Config :=
  {| Routes := [ {| sr_Prefix := "10.0.0.0/24"; sr_Nexthop := "192.0.2.1" |} ];
     BirdImport := {| Sockets := ["/run/bird/bird.ctl"] |} |}.

Definition req : SetupConfigRequest :=
  {| req_Instance := 1; req_ConfigName := "a"; req_Config := "routes: ..." |}.

(** Every collaborator succeeds. *)
Definition env_ok : SetupEnv :=
  {| unmarshal := fun _ => inl cfg; newClient := None;
     insertRoute := fun _ => None; flushRoutes := None; feedRIB := None |}.

(** The gateway refuses the first [FeedRIB]. *)
Definition env_no_stream : SetupEnv :=
  {| unmarshal := fun _ => inl cfg; newClient := None;
     insertRoute := fun _ => None; flushRoutes := None;
     feedRIB := Some (Opaque 14) |}.

(** The supervisor finds its context done in the preflight select. *)
Definition iter_ctx_done : IterEnv :=
  {| preflight := ChoseCtx; connState := Ready; wakes := [];
     runResult := None; idle := false; sleep := ChoseElse |}.

(** The holder of the first installation. *)
Definition first : importHolder :=
  {| export := 5; cancel := Some 2; conn := Some 1; currentStream := 4 |}.

(** Install under ("a", 1), install again under the same key, then let
    the supervisor of the first holder run. *)
Definition replacement : list Action :=
  [ActSetup req env_ok; ActSetup req env_ok; ActIter 0 iter_ctx_done].

(** The world after the first installation: the slot 4 of [first]
    holds the stream 3. *)
Definition installed_once : World := run [ActSetup req env_ok].

Definition target : TargetModule :=
  {| ConfigName := "a"; DataplaneInstance := 1 |}.

Definition routeA : rib_Route :=
  {| Prefix := "10.0.1.0/24"; ToRemove := false; attrs := 0 |}.
Definition routeB : rib_Route :=
  {| Prefix := "10.0.2.0/24"; ToRemove := true; attrs := 1 |}.

(** The context is found cancelled before the second route. *)
Definition upd_cancelled : UpdateEnv :=
  {| ctxAt := fun i => if Nat.eqb i 1 then Cancelled else Active;
     sendAt := fun _ => None;
     closeErr := Some (Opaque 21) |}.

(** [Send] fails for the second route. *)
Definition upd_send_fails : UpdateEnv :=
  {| ctxAt := fun _ => Active;
     sendAt := fun i => if Nat.eqb i 1 then Some (Opaque 9) else None;
     closeErr := None |}.

(** The reader fails with an error of its own; the backoff timer ends
    the sleep. *)
Definition iter_reader_fails : IterEnv :=
  {| preflight := ChoseElse; connState := Ready; wakes := [];
     runResult := Some (Opaque 5); idle := false; sleep := ChoseElse |}.

(** The reader stops cleanly. *)
Definition iter_clean : IterEnv :=
  {| preflight := ChoseElse; connState := Ready; wakes := [];
     runResult := None; idle := false; sleep := ChoseElse |}.

(** Scenario "static only": one static route, no BIRD socket. *)
Definition cfg_static : Config :=
  {| Routes := [ {| sr_Prefix := "10.0.0.0/24"; sr_Nexthop := "192.0.2.1" |} ];
     BirdImport := {| Sockets := [] |} |}.

(** Two static routes and one BIRD socket. *)
Definition cfg_two : Config :=
  {| Routes := [ {| sr_Prefix := "10.0.0.0/24"; sr_Nexthop := "192.0.2.1" |};
                 {| sr_Prefix := "10.0.1.0/24"; sr_Nexthop := "192.0.2.2" |} ];
     BirdImport := {| Sockets := ["/run/bird/bird.ctl"] |} |}.

(** The configuration does not parse. *)
Definition env_bad_yaml : SetupEnv :=
  {| unmarshal := fun _ => inr (Opaque 30); newClient := None;
     insertRoute := fun _ => None; flushRoutes := None; feedRIB := None |}.

(** The insert of the second static route fails. *)
Definition env_insert_fails : SetupEnv :=
  {| unmarshal := fun _ => inl cfg_two; newClient := None;
     insertRoute := fun i => if Nat.eqb i 1 then Some (Opaque 31) else None;
     flushRoutes := None; feedRIB := None |}.

(** The flush of the static routes fails. *)
Definition env_flush_fails : SetupEnv :=
  {| unmarshal := fun _ => inl cfg_two; newClient := None;
     insertRoute := fun _ => None;
     flushRoutes := Some (Opaque 32); feedRIB := None |}.

(** Every send succeeds. *)
Definition upd_ok : UpdateEnv :=
  {| ctxAt := fun _ => Active; sendAt := fun _ => None; closeErr := None |}.

(** The quit channel is closed before the preflight select. *)
Definition iter_quit : IterEnv :=
  {| preflight := ChoseQuit; connState := Ready; wakes := [];
     runResult := None; idle := false; sleep := ChoseElse |}.

(** The stream is down; the second [FeedRIB] of the reconnector
    succeeds; the reader fails again. *)
Definition iter_reconnects : IterEnv :=
  {| preflight := ChoseElse; connState := Ready;
     wakes := [WakeTick (Some (Opaque 40)); WakeTick None];
     runResult := Some (Opaque 41); idle := false; sleep := ChoseElse |}.

(** The stream is down and the context is cancelled while the
    reconnector waits for its second tick. *)
Definition iter_reconnect_aborted : IterEnv :=
  {| preflight := ChoseElse; connState := Ready;
     wakes := [WakeTick (Some (Opaque 40)); WakeCtx];
     runResult := None; idle := false; sleep := ChoseElse |}.

(** A second target: the same configuration name on another dataplane
    instance. *)
Definition req_b : SetupConfigRequest :=
  {| req_Instance := 2; req_ConfigName := "a"; req_Config := "routes: ..." |}.

(** Install under ("a", 1), then under ("a", 2). *)
Definition two_targets : list Action :=
  [ActSetup req env_ok; ActSetup req_b env_ok].

(** The holder of the second installation in [two_targets]. *)
Definition second : importHolder :=
  {| export := 10; cancel := Some 7; conn := Some 6; currentStream := 9 |}.

Definition dscp_cfg : dscp.Config :=
  {| dscp.MemoryPath := "/dev/hugepages/yanet";
     dscp.MemoryRequirements := 16777216;
     dscp.cfg_Endpoint := "[::1]:0" |}.

(** The shared memory is attached, the agents are refused. *)
Definition dscp_no_agents : dscp.NewEnv :=
  {| dscp.attachSharedMemory := inl 1; dscp.numaIndices := [0%N; 1%N];
     dscp.agentsAttach := inr (Opaque 12); dscp.newDscpService := 4 |}.

(** Two NUMA nodes, two agents. *)
Definition dscp_attached : dscp.NewEnv :=
  {| dscp.attachSharedMemory := inl 1; dscp.numaIndices := [0%N; 1%N];
     dscp.agentsAttach := inl [2; 3]; dscp.newDscpService := 4 |}.

(** Closing the first agent fails, and so does the detach. *)
Definition dscp_close_fails : dscp.CloseEnv :=
  {| dscp.agentClose := fun i => if Nat.eqb i 0 then Some (Opaque 5) else None;
     dscp.detach := Some (Opaque 6) |}.

End Example.

(** * Properties *)

(** ** Errors *)

Lemma error_eqb_refl e : error_eqb e e = true.
Proof.
  induction e using error_nested_ind; simpl; auto.
  - apply Nat.eqb_refl.
  - rewrite String.eqb_refl. done.
  - induction H as [|x l Hx Hl IH]; [done|]. by rewrite Hx, IH.
  - rewrite String.eqb_refl, IHe. by destruct c.
Qed.

Lemma Is_refl e : Is e e = true.
Proof.
  pose proof (error_eqb_refl e) as H.
  destruct e; simpl in *; try done; rewrite H; done.
Qed.

(** A joined error carries each of its members. *)
Lemma Is_Joined_member es e : e ∈ es -> Is (Joined es) e = true.
Proof.
  intros Hin. simpl. apply orb_true_iff. right.
  induction Hin as [x l|x y l Hin IH].
  - by rewrite Is_refl.
  - rewrite IH. apply orb_true_r.
Qed.

Lemma Is_Wrapf s e : Is (Wrapf s e) e = true.
Proof. simpl. rewrite Is_refl. apply orb_true_r. Qed.

(** ** The update forwarder *)

Lemma add_events_nil w : add_events w [] = w.
Proof. destruct w. unfold add_events. simpl. by rewrite app_nil_r. Qed.

Lemma add_events_app w e1 e2 :
  add_events (add_events w e1) e2 = add_events w (e1 ++ e2).
Proof. unfold add_events. simpl. by rewrite app_assoc. Qed.

Lemma emitted_app w w' evs : trace w' = trace w ++ evs -> emitted w w' = evs.
Proof. intros H. unfold emitted. rewrite H. by rewrite drop_app_length. Qed.

(** As long as the context is active and the sends succeed, [onUpdate]
    sends route after route. *)
Lemma onUpdate_from_pass holder target env k : forall idx routes w,
  k <= length routes ->
  (forall i, i < k -> ctxAt env (idx + i) = Active /\ sendAt env (idx + i) = None) ->
  onUpdate_from holder target env idx routes w
  = onUpdate_from holder target env (idx + k) (drop k routes)
      (add_events w (sends (current holder w) target (take k routes))).
Proof.
  induction k as [|k IH]; intros idx routes w Hlen Hpass.
  - rewrite Nat.add_0_r, drop_0, take_0. simpl. by rewrite add_events_nil.
  - destruct routes as [|r rest]; [simpl in Hlen; lia|].
    destruct (Hpass 0 ltac:(lia)) as [Hc Hs]. rewrite Nat.add_0_r in Hc, Hs.
    simpl. rewrite Hc. simpl. eff_simpl. rewrite Hs.
    rewrite IH.
    + replace (S idx + k) with (idx + S k) by lia.
      f_equal. unfold add_events, current. simpl. by rewrite <- app_assoc.
    + simpl in Hlen. lia.
    + intros i Hi. replace (S idx + i) with (idx + S i) by lia.
      apply Hpass. lia.
Qed.

(** C10: on an empty batch [onUpdate] returns nil and leaves the world
    as it was (no [Send], no [CloseAndRecv], the stream slot not
    read or written), whatever the state of the context: the
    cancellation check sits inside the loop over the routes.  With the
    same context already done, a batch of one route or more is refused
    at its first route, with [CloseAndRecv] as the only call. *)
Theorem onUpdate_empty_batch holder target env w :
  onUpdate holder target env [] w = (None, w) /\
  (forall r rest,
     ctxAt env 0 <> Active ->
     (onUpdate holder target env (r :: rest) w).1
     = Join [ctx_Err (ctxAt env 0); closeErr env; Some errStreamClosed] /\
     (onUpdate holder target env (r :: rest) w).1 <> None /\
     emitted w (onUpdate holder target env (r :: rest) w).2
     = [EvCloseAndRecv (current holder w)]).
Proof.
  split; [reflexivity|]. intros r rest Hdone.
  unfold onUpdate. simpl.
  destruct (ctxAt env 0) eqn:Hc; [done| |]; simpl; eff_simpl;
    (split; [reflexivity|]);
    (split; [unfold Join; by destruct (closeErr env)|]);
    by apply emitted_app.
Qed.

(** C3: when the context is found done before route [k] (every earlier
    route having been checked and sent), route [k] is not sent,
    [CloseAndRecv] is called on the current stream, and the returned
    error is the join of the context error, the close error and
    [errStreamClosed]: it carries each of them. *)
Theorem onUpdate_cancelled holder target env routes k r w :
  routes !! k = Some r ->
  (forall i, i < k -> ctxAt env i = Active /\ sendAt env i = None) ->
  ctxAt env k <> Active ->
  exists ctxErr ret,
    ctx_Err (ctxAt env k) = Some ctxErr /\
    onUpdate holder target env routes w
    = (Some ret,
       add_events w (sends (current holder w) target (take k routes)
                     ++ [EvCloseAndRecv (current holder w)])) /\
    Join [Some ctxErr; closeErr env; Some errStreamClosed] = Some ret /\
    Is ret ctxErr = true /\
    Is ret errStreamClosed = true /\
    (forall ce, closeErr env = Some ce -> Is ret ce = true).
Proof.
  intros Hk Hpass Hdone.
  assert (exists ctxErr, ctx_Err (ctxAt env k) = Some ctxErr) as [ctxErr Herr].
  { destruct (ctxAt env k); simpl; eauto. done. }
  assert (exists ret, Join [Some ctxErr; closeErr env; Some errStreamClosed]
                      = Some ret /\ ctxErr ∈ (match ret with Joined es => es | _ => [] end)
                      /\ errStreamClosed ∈ (match ret with Joined es => es | _ => [] end)
                      /\ (forall ce, closeErr env = Some ce ->
                            ce ∈ (match ret with Joined es => es | _ => [] end))
                      /\ exists es, ret = Joined es)
    as (ret & Hj & H1 & H2 & H3 & es & Hes).
  { unfold Join. destruct (closeErr env) as [ce|]; simpl; eexists;
      (split; [reflexivity|]); repeat split;
      try (intros ? [=<-]); try (by repeat constructor); eauto. }
  exists ctxErr, ret. split; [done|]. split.
  - unfold onUpdate.
    rewrite (onUpdate_from_pass holder target env k 0 routes w).
    + apply lookup_lt_Some in Hk as Hlt.
      rewrite (drop_S _ _ _ Hk). simpl. rewrite Herr. eff_simpl.
      rewrite Hj. f_equal. unfold add_events, current. simpl.
      by rewrite <- app_assoc.
    + apply lookup_lt_Some in Hk. lia.
    + intros i Hi. simpl. by apply Hpass.
  - split; [done|]. subst ret.
    repeat split; intros; apply Is_Joined_member; auto.
Qed.

(** C6, as the code has it: when [Send] fails for route [k], [onUpdate]
    returns the send error wrapped by [fmt.Errorf] with [%w] under a
    message that names the prefix; the send error is what [Unwrap]
    gives and [errors.Is] finds.  The failing route was sent once and
    nothing is sent after it. *)
Theorem onUpdate_send_error holder target env routes k r err w :
  routes !! k = Some r ->
  (forall i, i < k -> ctxAt env i = Active /\ sendAt env i = None) ->
  ctxAt env k = Active ->
  sendAt env k = Some err ->
  exists ret,
    onUpdate holder target env routes w
    = (Some ret,
       add_events w (sends (current holder w) target (take (S k) routes))) /\
    ret = Wrapf ("send BIRD route update for " +:+ Prefix r +:+ " failed: ") err /\
    Unwrap ret = Some err /\
    Is ret err = true.
Proof.
  intros Hk Hpass Hc Hs. eexists. split; [|split; [reflexivity|]].
  - unfold onUpdate.
    rewrite (onUpdate_from_pass holder target env k 0 routes w).
    + rewrite (drop_S _ _ _ Hk). simpl. rewrite Hc. simpl. eff_simpl.
      rewrite Hs. f_equal. unfold add_events, current. simpl.
      rewrite (take_S_r _ _ _ Hk). unfold sends. rewrite map_app.
      simpl. by rewrite <- app_assoc.
    + apply lookup_lt_Some in Hk. lia.
    + intros i Hi. simpl. by apply Hpass.
  - split; [done|]. apply Is_Wrapf.
Qed.

(** ** The stream reconnector *)

Lemma decided_by_unique ws n k m k' :
  decided_by ws n k -> decided_by ws m k' -> n = m /\ k = k'.
Proof.
  intros (Hn & Hnf & Hfn) (Hm & Hmf & Hfm).
  destruct (Nat.lt_trichotomy n m) as [Hlt|[->|Hlt]].
  - exfalso. apply Hnf.
    eapply (proj1 (Forall_lookup _ _) Hfm n). by rewrite lookup_take_lt.
  - split; [done|]. congruence.
  - exfalso. apply Hmf.
    eapply (proj1 (Forall_lookup _ _) Hfn m). by rewrite lookup_take_lt.
Qed.

Lemma decided_by_cons_failed e ws n k :
  decided_by ws n k -> decided_by (WakeTick (Some e) :: ws) (S n) k.
Proof.
  intros (Hn & Hnf & Hf). repeat split; try done.
  simpl. constructor; [by exists e|done].
Qed.

Lemma decided_by_here k ws : ~ failed_tick k -> decided_by (k :: ws) 0 k.
Proof. intros Hk. repeat split; done. Qed.

(** What a call of the reconnector does, by the wake that decides it. *)
Lemma reconnectStream_cases client ctx slot : forall ws w,
  (exists n, decided_by ws n (WakeTick None) /\
     reconnectStream client ctx slot ws w
     = (Some true,
        mkWorld (imports w) (<[slot := next_ptr w]> (slots w))
                (S (next_ptr w)) (tasks w)
                (trace w ++ replicate (S n) (EvFeedRIB client ctx)))) \/
  (exists n k, (k = WakeQuit \/ k = WakeCtx) /\ decided_by ws n k /\
     reconnectStream client ctx slot ws w
     = (Some false, add_events w (replicate n (EvFeedRIB client ctx)))) \/
  (Forall failed_tick ws /\
     reconnectStream client ctx slot ws w
     = (None, add_events w (replicate (length ws) (EvFeedRIB client ctx)))).
Proof.
  induction ws as [|k ws IH]; intros w.
  - right. right. split; [constructor|]. simpl. by rewrite add_events_nil.
  - destruct k as [| |[e|]].
    + right. left. exists 0, WakeQuit. split; [by left|]. split.
      * apply decided_by_here. by intros [? ?].
      * simpl. by rewrite add_events_nil.
    + right. left. exists 0, WakeCtx. split; [by right|]. split.
      * apply decided_by_here. by intros [? ?].
      * simpl. by rewrite add_events_nil.
    + simpl. eff_simpl.
      destruct (IH (add_events w [EvFeedRIB client ctx]))
        as [(n & Hd & Hr)|[(n & k & Hk & Hd & Hr)|(Hf & Hr)]].
      * left. exists (S n). split; [by apply decided_by_cons_failed|].
        unfold add_events in Hr. simpl in Hr. rewrite Hr. simpl.
        by rewrite <- app_assoc.
      * right. left. exists (S n), k. split; [done|]. split;
          [by apply decided_by_cons_failed|].
        unfold add_events in Hr. simpl in Hr. rewrite Hr.
        unfold add_events. simpl. by rewrite <- app_assoc.
      * right. right. split; [constructor; [by exists e|done]|].
        unfold add_events in Hr. simpl in Hr. rewrite Hr.
        unfold add_events. simpl. by rewrite <- app_assoc.
    + left. exists 0. split.
      * apply decided_by_here. by intros [? ?].
      * simpl. eff_simpl. done.
Qed.

Lemma Forall_failed_not_decided ws n k :
  Forall failed_tick ws -> decided_by ws n k -> False.
Proof.
  intros Hf (Hn & Hnf & _). apply Hnf.
  by eapply (proj1 (Forall_lookup _ _) Hf n).
Qed.

(** C8: the reconnector returns [true] exactly when a [FeedRIB] call
    succeeds (a tick with a successful [FeedRIB], before which every
    wake was a tick with a failed one), and then the slot holds the new
    stream handle; it returns [false] exactly when the quit signal or
    the context is what wakes it first (again after failed ticks only),
    and then the slots are as they were. *)
Theorem reconnectStream_result client ctx slot ws w :
  let res := reconnectStream client ctx slot ws w in
  (res.1 = Some true <-> exists n, decided_by ws n (WakeTick None)) /\
  (res.1 = Some true ->
     slots res.2 = <[slot := next_ptr w]> (slots w) /\
     next_ptr w < next_ptr res.2) /\
  (res.1 = Some false <->
     exists n, decided_by ws n WakeQuit \/ decided_by ws n WakeCtx) /\
  (res.1 = Some false -> slots res.2 = slots w).
Proof.
  simpl.
  destruct (reconnectStream_cases client ctx slot ws w)
    as [(n & Hd & Hr)|[(n & k & Hk & Hd & Hr)|(Hf & Hr)]]; rewrite Hr; simpl.
  - split; [split; eauto|]. split; [intros _; split; [done|lia]|].
    split; [|done]. split; [done|].
    intros (m & [Hm|Hm]); by destruct (decided_by_unique _ _ _ _ _ Hd Hm).
  - split.
    { split; [done|]. intros (m & Hm).
      destruct (decided_by_unique _ _ _ _ _ Hd Hm) as [_ ->].
      by destruct Hk. }
    split; [done|]. split; [|done]. split; [|done].
    intros _. exists n. destruct Hk as [->| ->]; eauto.
  - split.
    { split; [done|]. intros (m & Hm).
      by destruct (Forall_failed_not_decided _ _ _ Hf Hm). }
    split; [done|]. split; [|done]. split; [done|].
    intros (m & [Hm|Hm]); by destruct (Forall_failed_not_decided _ _ _ Hf Hm).
Qed.

(** ** The supervisor: what follows [export.Run] *)

Lemma loop_body_reaches_run ctx holder st env w w1 :
  reaches_run ctx holder st env w w1 ->
  loop_body ctx holder st env w
  = (let w2 := add_events w1 [EvRun (export holder) ctx] in
     match runResult env with
     | None => (Returned, w2)
     | Some err =>
         if Is err Canceled || Is err DeadlineExceeded then (Returned, w2)
         else
           let n := if idle env then 0 else runBackoff st in
           let w3 := add_events w2
                       ((if Is err errStreamClosed then []
                         else [EvCloseAndRecv (current holder w1)])
                        ++ [EvSleep n]) in
           match sleep env with
           | ChoseElse => (Again (mkLoop false (S n)), w3)
           | _ => (Returned, w3)
           end
     end).
Proof.
  intros (Hpre & client & Hconn & Hstate & Hstream).
  unfold loop_body, mbind, mret, Eff_bind, Eff_ret. rewrite Hpre, Hconn.
  assert (forall A (k : option bool -> World -> A),
            (let (ok, w') :=
               (if streamActive st then fun w => (Some true, w)
                else reconnectStream client ctx (currentStream holder)
                       (wakes env)) w in k ok w') = k (Some true) w1) as Hok.
  { intros A k. destruct Hstream as [[-> ->]|[-> Hr]]; [done|by rewrite Hr]. }
  destruct (connState env); try done; rewrite Hok; simpl;
    (destruct (runResult env) as [err|]; [|done]);
    (destruct (Is err Canceled || Is err DeadlineExceeded); [done|]);
    unfold current;
    destruct (Is err errStreamClosed); simpl;
    destruct (sleep env); simpl; unfold add_events; simpl;
    rewrite <- ?app_assoc; done.
Qed.

(** C2: what the supervisor loop does with the value that [export.Run]
    returns.  On nil the loop returns.  On an error that is
    [context.Canceled] or [context.DeadlineExceeded] it returns with
    nothing done after [Run].  On any other error it calls
    [CloseAndRecv] on the current stream exactly when the error does not
    carry [errStreamClosed], then sleeps for the next backoff; it
    returns if the context or the quit signal ends the sleep, and
    otherwise goes through the loop again with the stream marked
    inactive. *)
Theorem loop_on_run_result ctx holder st env rest w w1 :
  reaches_run ctx holder st env w w1 ->
  let w2 := add_events w1 [EvRun (export holder) ctx] in
  (runResult env = None ->
     loop ctx holder st (env :: rest) w = (true, w2)) /\
  (forall err, runResult env = Some err ->
     Is err Canceled = true \/ Is err DeadlineExceeded = true ->
     loop ctx holder st (env :: rest) w = (true, w2)) /\
  (forall err, runResult env = Some err ->
     Is err Canceled = false -> Is err DeadlineExceeded = false ->
     let closing := if Is err errStreamClosed then []
                    else [EvCloseAndRecv (current holder w1)] in
     let n := if idle env then 0 else runBackoff st in
     let w3 := add_events w2 (closing ++ [EvSleep n]) in
     (EvCloseAndRecv (current holder w1) ∈ closing
        <-> Is err errStreamClosed = false) /\
     (sleep env = ChoseCtx \/ sleep env = ChoseQuit ->
        loop ctx holder st (env :: rest) w = (true, w3)) /\
     (sleep env = ChoseElse ->
        loop ctx holder st (env :: rest) w
        = loop ctx holder {| streamActive := false; runBackoff := S n |}
               rest w3)).
Proof.
  intros Hreach. pose proof (loop_body_reaches_run _ _ _ _ _ _ Hreach) as Hb.
  simpl in *. unfold mbind, Eff_bind. rewrite Hb. clear Hb.
  split; [by intros ->|]. split.
  - intros err -> Hc.
    assert (Is err Canceled || Is err DeadlineExceeded = true) as ->; [|done].
    apply orb_true_iff. done.
  - intros err -> -> ->. simpl. split; [|split].
    + destruct (Is err errStreamClosed); split; try done.
      * by intros ?%elem_of_nil.
      * intros _. constructor.
    + by intros [-> | ->].
    + by intros ->.
Qed.

(** ** Frames: what a piece of code leaves alone *)

Lemma frame_refl P w : frame P w w.
Proof.
  repeat split; try done. exists []. by rewrite app_nil_r.
Qed.

Lemma frame_trans P w1 w2 w3 : frame P w1 w2 -> frame P w2 w3 -> frame P w1 w3.
Proof.
  intros (Hi & Ht & Hn & e1 & He1 & Hf1) (Hi' & Ht' & Hn' & e2 & He2 & Hf2).
  repeat split; try congruence; try lia.
  exists (e1 ++ e2). split; [|by apply Forall_app_2].
  by rewrite He2, He1, app_assoc.
Qed.

Lemma frame_weaken (P Q : Event -> Prop) w w' :
  (forall e, P e -> Q e) -> frame P w w' -> frame Q w w'.
Proof.
  intros HPQ (Hi & Ht & Hn & evs & He & Hf). repeat split; try done.
  exists evs. split; [done|]. eapply Forall_impl; eauto.
Qed.

Lemma reconnectStream_frame client ctx slot ws w :
  frame supervisor_event w (reconnectStream client ctx slot ws w).2.
Proof.
  destruct (reconnectStream_cases client ctx slot ws w)
    as [(n & Hd & Hr)|[(n & k & Hk & Hd & Hr)|(Hf & Hr)]]; rewrite Hr;
    unfold add_events; frame_tac.
Qed.

Lemma loop_body_frame ctx holder st env w :
  is_Some (conn holder) ->
  frame supervisor_event w (loop_body ctx holder st env w).2.
Proof.
  intros [client Hconn]. unfold loop_body. rewrite Hconn.
  destruct (preflight env); try apply frame_refl.
  assert (forall ok w1,
    frame supervisor_event w w1 ->
    frame supervisor_event w
      (match ok with
       | None => mret Blocked
       | Some false => mret Returned
       | Some true =>
           emit (EvRun (export holder) ctx);;
           match runResult env with
           | None => mret Returned
           | Some err =>
               if Is err Canceled || Is err DeadlineExceeded
               then mret Returned
               else
                 (if negb (Is err errStreamClosed)
                  then s ← load (currentStream holder);
                       emit (EvCloseAndRecv s)
                  else mret tt);;
                 let n := if idle env then 0 else runBackoff st in
                 emit (EvSleep n);;
                 match sleep env with
                 | ChoseCtx => mret Returned
                 | ChoseQuit => mret Returned
                 | ChoseElse => mret (Again (mkLoop false (S n)))
                 end
           end
       end w1).2) as Hrest.
  { intros ok w1 Hw1. eapply frame_trans; [exact Hw1|].
    destruct ok as [[|]|]; try apply frame_refl.
    eff_simpl. destruct (runResult env) as [err|]; [|frame_tac].
    destruct (Is err Canceled || Is err DeadlineExceeded); [frame_tac|].
    destruct (Is err errStreamClosed); simpl;
      destruct (sleep env); frame_tac. }
  pose proof (reconnectStream_frame client ctx (currentStream holder)
                (wakes env) w) as Hrec.
  destruct (connState env); try apply frame_refl;
    (destruct (streamActive st);
     [ exact (Hrest (Some true) w (frame_refl _ _))
     | unfold mbind at 1; unfold Eff_bind at 1;
       destruct (reconnectStream client ctx (currentStream holder)
                   (wakes env) w) as [ok w1]; exact (Hrest ok w1 Hrec) ]).
Qed.

Lemma loop_frame ctx holder envs : forall st w,
  is_Some (conn holder) ->
  frame supervisor_event w (loop ctx holder st envs w).2.
Proof.
  induction envs as [|env rest IH]; intros st w Hc; [apply frame_refl|].
  simpl. unfold mbind, Eff_bind.
  pose proof (loop_body_frame ctx holder st env w Hc) as Hb.
  destruct (loop_body ctx holder st env w) as [[| |st'] w1]; try done.
  eapply frame_trans; [exact Hb|]. by apply IH.
Qed.

(** ** Setup: the static-route prelude *)

Lemma count_app p l1 l2 : count p (l1 ++ l2) = count p l1 + count p l2.
Proof. induction l1 as [|e l1 IH]; simpl; [done|]. rewrite IH. lia. Qed.

Lemma count_none p l : Forall (fun e => p e = false) l -> count p l = 0.
Proof. induction 1 as [|e l He _ IH]; simpl; [done|]. by rewrite He, IH. Qed.

Lemma insertStatic_pass cc target env k : forall idx routes w,
  k <= length routes ->
  (forall i, i < k -> insertRoute env (idx + i) = None) ->
  insertStatic cc target env idx routes w
  = insertStatic cc target env (idx + k) (drop k routes)
      (add_events w (inserts cc target (take k routes))).
Proof.
  induction k as [|k IH]; intros idx routes w Hlen Hpass.
  - rewrite Nat.add_0_r, drop_0, take_0. simpl. by rewrite add_events_nil.
  - destruct routes as [|r rest]; [simpl in Hlen; lia|].
    pose proof (Hpass 0 ltac:(lia)) as H0. rewrite Nat.add_0_r in H0.
    simpl. eff_simpl. rewrite H0. rewrite IH.
    + replace (S idx + k) with (idx + S k) by lia.
      f_equal. unfold add_events. simpl. by rewrite <- app_assoc.
    + simpl in Hlen. lia.
    + intros i Hi. replace (S idx + i) with (idx + S i) by lia.
      apply Hpass. lia.
Qed.

(** Every insert succeeds: all routes are inserted. *)
Lemma insertStatic_ok cc target env routes w :
  (forall i, i < length routes -> insertRoute env i = None) ->
  insertStatic cc target env 0 routes w
  = (None, add_events w (inserts cc target routes)).
Proof.
  intros Hpass.
  rewrite (insertStatic_pass cc target env (length routes) 0 routes w);
    [|lia|done].
  by rewrite drop_all, firstn_all.
Qed.

(** The insert of route [j] is the first to fail: the routes up to and
    including [j] were inserted, and the loop is left with the wrapped
    error. *)
Lemma insertStatic_abort cc target env routes j r err w :
  routes !! j = Some r ->
  (forall i, i < j -> insertRoute env i = None) ->
  insertRoute env j = Some err ->
  insertStatic cc target env 0 routes w
  = (Some (Wrapf "failed to insert static route: " err),
     add_events w (inserts cc target (take (S j) routes))).
Proof.
  intros Hj Hpass Hfail.
  rewrite (insertStatic_pass cc target env j 0 routes w); [| |done].
  - rewrite (drop_S _ _ _ Hj). simpl. eff_simpl. rewrite Hfail.
    f_equal. unfold add_events. simpl.
    rewrite (take_S_r _ _ _ Hj). unfold inserts. rewrite map_app. simpl.
    by rewrite <- app_assoc.
  - apply lookup_lt_Some in Hj. lia.
Qed.

(** Whatever the RPCs answer, the loop only adds [InsertRoute] events. *)
Lemma insertStatic_events cc target env : forall routes idx w,
  exists evs,
    (insertStatic cc target env idx routes w).2 = add_events w evs /\
    Forall (fun e => is_insert e = true) evs.
Proof.
  induction routes as [|r rest IH]; intros idx w.
  - exists []. split; [by rewrite add_events_nil|constructor].
  - simpl. eff_simpl. destruct (insertRoute env idx) as [err|].
    + eexists [_]. split; [done|]. by repeat constructor.
    + destruct (IH (S idx) (add_events w
         [EvInsertRoute cc target (sr_Prefix r) (sr_Nexthop r)]))
        as (evs & Hw & Hf).
      unfold add_events in Hw. simpl in Hw. rewrite Hw.
      exists (EvInsertRoute cc target (sr_Prefix r) (sr_Nexthop r) :: evs).
      split; [|by constructor].
      unfold add_events. simpl. by rewrite <- app_assoc.
Qed.

(** ** Setup: installing an import *)

Lemma processBirdImport_stream_failure cc cfg target env err w :
  feedRIB env = Some err ->
  processBirdImport cc cfg target env w
  = (Some (Wrapf "failed to setup initial BIRD import stream: " err),
     mkWorld (imports w) (slots w) (S (next_ptr w)) (tasks w)
       (trace w ++ [EvFeedRIB cc (next_ptr w);
                    EvCancel AtStreamFail (next_ptr w)])).
Proof.
  intros Hf. unfold processBirdImport. eff_simpl. rewrite Hf. simpl.
  by rewrite <- app_assoc.
Qed.

Lemma processBirdImport_install cc cfg target env w :
  feedRIB env = None ->
  processBirdImport cc cfg target env w
  = (None, installed cc (mkKey (ConfigName target) (DataplaneInstance target)) w).
Proof.
  intros Hf. unfold processBirdImport, installed, new_holder.
  unfold mbind, mret, Eff_bind, Eff_ret, alloc, store, lookup_import,
    store_import, go, emit. simpl. rewrite Hf. simpl.
  rewrite ?Nat.add_succ_r, ?Nat.add_0_r. unfold teardown.
  destruct (imports w !! _) as [[e [c|] [k|] s]|]; simpl;
    rewrite <- ?app_assoc; simpl; done.
Qed.

Lemma setupConfig_prelude instance configName config env w :
  newClient env = None ->
  (forall i, i < length (Routes config) -> insertRoute env i = None) ->
  flushRoutes env = None ->
  setupConfig instance configName config env w
  = let cc := next_ptr w in
    let target := {| ConfigName := configName;
                     DataplaneInstance := instance |} in
    let w1 := after_prelude instance configName config w in
    if Nat.eqb (length (Sockets (BirdImport config))) 0
    then (None, add_events w1 [EvConnClose AtNoSockets cc])
    else processBirdImport cc (BirdImport config) target env w1.
Proof.
  intros Hn Hi Hf. unfold setupConfig. rewrite Hn.
  unfold mbind at 1. unfold Eff_bind, alloc.
  unfold mbind at 1. unfold Eff_bind, emit.
  unfold mbind at 1. unfold Eff_bind.
  rewrite insertStatic_ok by done.
  unfold mbind at 1. unfold Eff_bind, emit. rewrite Hf.
  unfold after_prelude, add_events. simpl. rewrite <- !app_assoc. simpl.
  destruct (Nat.eqb _ 0); [|done].
  eff_simpl. rewrite <- ?app_assoc. simpl. by rewrite <- ?app_assoc.
Qed.

Lemma is_insert_prelude e : is_insert e = true -> prelude_event e.
Proof. by destruct e. Qed.

(** A setup either installs nothing, or gets as far as the locked part
    of [processBirdImport] over a fresh connection. *)
Lemma setupConfig_cases instance configName config env w :
  let res := setupConfig instance configName config env w in
  frame prelude_event w res.2 \/
  exists w1,
    frame prelude_event w w1 /\ next_ptr w < next_ptr w1 /\
    feedRIB env = None /\
    res = processBirdImport (next_ptr w) (BirdImport config)
            {| ConfigName := configName; DataplaneInstance := instance |}
            env w1.
Proof.
  intros res. assert (res = setupConfig instance configName config env w)
    as Hres by done. clearbody res. unfold setupConfig in Hres.
  destruct (newClient env) as [err|]; [left; subst res; apply frame_refl|].
  unfold mbind at 1 in Hres. unfold Eff_bind, alloc in Hres.
  unfold mbind at 1 in Hres. unfold Eff_bind, emit in Hres.
  unfold mbind at 1 in Hres. unfold Eff_bind in Hres.
  match type of Hres with context [insertStatic ?cc ?t ?e ?i ?r ?w0] =>
    destruct (insertStatic_events cc t e r i w0) as (evs & Hw & Hevs);
    destruct (insertStatic cc t e i r w0) as [r1 w1]
  end.
  simpl in Hw. subst w1.
  assert (Forall prelude_event evs) as Hevs'.
  { eapply Forall_impl; [exact Hevs|]. apply is_insert_prelude. }
  destruct r1 as [err|]; [left; subst res; unfold add_events; frame_tac|].
  unfold mbind at 1 in Hres. unfold Eff_bind, emit in Hres.
  destruct (flushRoutes env) as [err|];
    [left; subst res; unfold add_events; frame_tac|].
  destruct (Nat.eqb _ 0).
  { left. subst res. eff_simpl. unfold add_events. frame_tac. }
  destruct (feedRIB env) as [err|] eqn:Hfeed.
  - left. subst res.
    rewrite (processBirdImport_stream_failure _ _ _ _ err) by done.
    unfold add_events. frame_tac.
  - right. eexists. split; [|split; [|split; [done|]]]; cycle 2.
    + exact Hres.
    + unfold add_events. frame_tac.
    + simpl. lia.
Qed.

Lemma SetupConfig_cases req env w :
  let res := SetupConfig req env w in
  frame prelude_event w res.2 \/
  exists w1,
    frame prelude_event w w1 /\ next_ptr w < next_ptr w1 /\
    res = (None, installed (next_ptr w)
                   (mkKey (req_ConfigName req) (req_Instance req)) w1).
Proof.
  intros res. subst res. unfold SetupConfig.
  destruct (unmarshal env (req_Config req)) as [cfg|err];
    [|left; apply frame_refl].
  unfold mbind, Eff_bind.
  destruct (setupConfig_cases (req_Instance req) (req_ConfigName req) cfg env w)
    as [Hq|(w1 & Hfr & Hlt & Hfeed & Hres)].
  - left. destruct (setupConfig _ _ _ _ w) as [[err|] w']; exact Hq.
  - right. exists w1. split; [done|]. split; [done|].
    rewrite Hres, processBirdImport_install by done. done.
Qed.

Lemma count_teardown_flush old : count is_flush (teardown old) = 0.
Proof. by destruct old as [[e [c|] [k|] s]|]. Qed.

Lemma count_teardown_insert old : count is_insert (teardown old) = 0.
Proof. by destruct old as [[e [c|] [k|] s]|]. Qed.

(** C7: when the gateway connection is made and no RPC fails, setup
    issues one [InsertRoute] per static route in the order of the
    configuration and then one [FlushRoutes], and no other insert or
    flush after them; with no BIRD socket configured it then closes the
    gateway connection and returns nil, with the registry and the pool
    of supervisors as they were. *)
Theorem setupConfig_static_routes instance configName config env w :
  newClient env = None ->
  (forall i, i < length (Routes config) -> insertRoute env i = None) ->
  flushRoutes env = None ->
  let cc := next_ptr w in
  let target := {| ConfigName := configName; DataplaneInstance := instance |} in
  let res := setupConfig instance configName config env w in
  (exists rest,
     emitted w res.2
     = [EvNewClient cc] ++ inserts cc target (Routes config)
         ++ [EvFlushRoutes cc target] ++ rest /\
     count is_insert rest = 0 /\ count is_flush rest = 0) /\
  (Sockets (BirdImport config) = [] ->
     res = (None, add_events (after_prelude instance configName config w)
                    [EvConnClose AtNoSockets cc]) /\
     emitted w res.2
     = [EvNewClient cc] ++ inserts cc target (Routes config)
         ++ [EvFlushRoutes cc target; EvConnClose AtNoSockets cc] /\
     imports res.2 = imports w /\ tasks res.2 = tasks w).
Proof.
  intros Hn Hi Hf cc target res.
  assert (res = (if Nat.eqb (length (Sockets (BirdImport config))) 0
                 then (None, add_events (after_prelude instance configName
                                           config w)
                               [EvConnClose AtNoSockets cc])
                 else processBirdImport cc (BirdImport config) target env
                        (after_prelude instance configName config w))) as Hres.
  { subst res. by rewrite setupConfig_prelude. }
  clearbody res. split.
  - destruct (Nat.eqb _ 0).
    + exists [EvConnClose AtNoSockets cc]. subst res. split; [|done].
      apply emitted_app. simpl. app_norm. done.
    + destruct (feedRIB env) as [err|] eqn:Hfeed.
      * rewrite (processBirdImport_stream_failure _ _ _ _ err) in Hres by done.
        subst res. eexists. split.
        -- apply emitted_app. simpl. app_norm. reflexivity.
        -- done.
      * rewrite processBirdImport_install in Hres by done.
        subst res. eexists. split.
        -- apply emitted_app. simpl. app_norm. reflexivity.
        -- simpl. rewrite !count_app, count_teardown_insert,
             count_teardown_flush. done.
  - intros Hs. rewrite Hs in Hres. simpl in Hres. subst res.
    split; [done|]. split; [|done].
    apply emitted_app. simpl. app_norm. done.
Qed.

(** The abort that the prelude takes on the first failing insert: the
    routes up to and including the failing one were sent, no flush is
    issued, the wrapped error is returned. *)
Lemma setupConfig_insert_abort instance configName config env j r err w :
  newClient env = None ->
  Routes config !! j = Some r ->
  (forall i, i < j -> insertRoute env i = None) ->
  insertRoute env j = Some err ->
  setupConfig instance configName config env w
  = (Some (Wrapf "failed to insert static route: " err),
     mkWorld (imports w) (slots w) (S (next_ptr w)) (tasks w)
       (trace w ++ [EvNewClient (next_ptr w)]
          ++ inserts (next_ptr w)
               {| ConfigName := configName; DataplaneInstance := instance |}
               (take (S j) (Routes config)))).
Proof.
  intros Hn Hj Hpass Hfail. unfold setupConfig. rewrite Hn.
  unfold mbind at 1. unfold Eff_bind, alloc.
  unfold mbind at 1. unfold Eff_bind, emit.
  unfold mbind at 1. unfold Eff_bind.
  rewrite (insertStatic_abort _ _ _ _ j r err) by done.
  unfold add_events. simpl. by rewrite <- app_assoc.
Qed.

Lemma inserts_no_close s cc cc' target routes :
  EvConnClose s cc ∉ inserts cc' target routes.
Proof.
  unfold inserts. intros (r & Hr & _)%list_elem_of_fmap. discriminate.
Qed.

(** C4, as the code has it: when the first [FeedRIB] of a setup fails,
    [SetupConfig] returns an [Internal] status error, the registry and
    the pool of supervisors are as they were and the fresh context is
    cancelled, but no [Close] is called on the gateway connection that
    the call opened. *)
Theorem SetupConfig_stream_open_failure req env cfg err w :
  unmarshal env (req_Config req) = inl cfg ->
  newClient env = None ->
  (forall i, i < length (Routes cfg) -> insertRoute env i = None) ->
  flushRoutes env = None ->
  Sockets (BirdImport cfg) <> [] ->
  feedRIB env = Some err ->
  let cc := next_ptr w in
  let target := {| ConfigName := req_ConfigName req;
                   DataplaneInstance := req_Instance req |} in
  let res := SetupConfig req env w in
  res.1 = Some (Status Internal "failed to setup configuration: "
                  (Wrapf "failed to setup initial BIRD import stream: " err)) /\
  imports res.2 = imports w /\
  tasks res.2 = tasks w /\
  emitted w res.2
  = [EvNewClient cc] ++ inserts cc target (Routes cfg)
      ++ [EvFlushRoutes cc target; EvFeedRIB cc (S cc);
          EvCancel AtStreamFail (S cc)] /\
  (forall s, EvConnClose s cc ∉ emitted w res.2).
Proof.
  intros Hu Hn Hi Hfl Hs Hfeed cc target res.
  assert (res = (Some (Status Internal "failed to setup configuration: "
                   (Wrapf "failed to setup initial BIRD import stream: " err)),
                 mkWorld (imports w) (slots w) (S (S cc)) (tasks w)
                   (trace w ++ [EvNewClient cc]
                      ++ inserts cc target (Routes cfg)
                      ++ [EvFlushRoutes cc target; EvFeedRIB cc (S cc);
                          EvCancel AtStreamFail (S cc)]))) as ->.
  { subst res. unfold SetupConfig. rewrite Hu. unfold mbind, Eff_bind.
    rewrite setupConfig_prelude by done. simpl.
    destruct (Sockets (BirdImport cfg)) as [|sk sks] eqn:Hsk; [done|]. simpl.
    rewrite (processBirdImport_stream_failure _ _ _ _ err) by done.
    simpl. app_norm. done. }
  simpl. repeat split; try done.
  - by apply emitted_app.
  - intros s. erewrite emitted_app; [|reflexivity].
    intros [Hin|[Hin|Hin]%elem_of_app]%elem_of_cons.
    + discriminate.
    + by apply inserts_no_close in Hin.
    + repeat (apply elem_of_cons in Hin as [Hin|Hin]; [discriminate|]).
      by apply elem_of_nil in Hin.
Qed.

(** ** The registry invariant *)

Lemma prelude_quiet e : prelude_event e -> quiet e.
Proof. by destruct e as [| | | | | |[]|[]| | | | | | |]. Qed.

Lemma supervisor_quiet e : supervisor_event e -> quiet e.
Proof. by destruct e. Qed.

Lemma cancels_app s c l1 l2 :
  cancels s c (l1 ++ l2) = cancels s c l1 + cancels s c l2.
Proof. apply count_app. Qed.

Lemma cancels_quiet s c evs :
  s = AtReplace \/ s = AtCleanup -> Forall quiet evs -> cancels s c evs = 0.
Proof.
  intros Hs Hq. apply count_none. eapply Forall_impl; [exact Hq|].
  intros [] He; try done. simpl.
  destruct s0, Hs as [-> | ->]; simpl in *; try done.
Qed.

Lemma panics_quiet evs : Forall quiet evs -> count is_panic evs = 0.
Proof.
  intros Hq. apply count_none. eapply Forall_impl; [exact Hq|].
  by intros [].
Qed.

Lemma last_store_app K l1 l2 :
  last_store K (l1 ++ l2)
  = foldl (fun acc e =>
             match e with
             | EvStore K' h => if decide (K' = K) then Some h else acc
             | _ => acc
             end) (last_store K l1) l2.
Proof. unfold last_store. by rewrite foldl_app. Qed.

Lemma foldl_store_quiet K acc evs :
  Forall (fun e => match e with EvStore _ _ => False | _ => True end) evs ->
  foldl (fun acc e =>
           match e with
           | EvStore K' h => if decide (K' = K) then Some h else acc
           | _ => acc
           end) acc evs = acc.
Proof.
  induction 1 as [|e l He _ IH]; [done|]. simpl. by destruct e.
Qed.

Lemma last_store_quiet K tr evs :
  Forall quiet evs -> last_store K (tr ++ evs) = last_store K tr.
Proof.
  intros Hq. rewrite last_store_app. apply foldl_store_quiet.
  eapply Forall_impl; [exact Hq|]. by intros [].
Qed.

Lemma Inv_init : Inv NewModuleService.
Proof.
  split; simpl; try done.
  - intros c. unfold cancels. simpl. lia.
  - intros t Ht. by apply elem_of_nil in Ht.
  - constructor.
  - intros c. unfold cancels. simpl. lia.
Qed.

Lemma Inv_frame w w' : Inv w -> frame quiet w w' -> Inv w'.
Proof.
  intros [H1 H2 H3 H4 H5 H6 H7 H8 H9] (Hi & Ht & Hn & evs & He & Hq).
  assert (forall s c, s = AtReplace \/ s = AtCleanup ->
            cancels s c (trace w') = cancels s c (trace w)) as Hc.
  { intros s c Hs. rewrite He, cancels_app, (cancels_quiet s c evs) by done.
    lia. }
  split.
  - intros K. rewrite Hi, He, last_store_quiet by done. apply H1.
  - intros K h HK. rewrite Hi in HK.
    destruct (H2 K h HK) as (c & k & ? & ? & ? & ?).
    exists c, k. rewrite Hc by auto. repeat split; try done. lia.
  - intros K K' h h'. rewrite Hi. apply H3.
  - intros c Hle. rewrite !Hc by auto. apply H4. lia.
  - intros c. rewrite Hc by auto. apply H5.
  - intros t Hin. rewrite Ht in Hin.
    destruct (H6 t Hin) as (c & k & ? & ? & ? & ?).
    exists c, k. rewrite Hc by auto. repeat split; try done. lia.
  - by rewrite Ht.
  - intros c. rewrite Hc by auto. apply H8.
  - rewrite He, count_app, H9, panics_quiet; done.
Qed.

(** *** Installing a holder keeps the invariant *)

Lemma teardown_cleanup c old : cancels AtCleanup c (teardown old) = 0.
Proof. by destruct old as [[e [c'|] [k|] s]|]. Qed.

Lemma teardown_panic old : count is_panic (teardown old) = 0.
Proof. by destruct old as [[e [c'|] [k|] s]|]. Qed.

Lemma teardown_replace_le c old : cancels AtReplace c (teardown old) <= 1.
Proof.
  destruct old as [[e [c'|] [k|] s]|]; unfold cancels; simpl;
    repeat case_match; simpl; lia.
Qed.

Lemma teardown_replace_other c old :
  (forall h, old = Some h -> cancel h <> Some c) ->
  cancels AtReplace c (teardown old) = 0.
Proof.
  intros Hne. destruct old as [h|]; [|done].
  specialize (Hne h eq_refl).
  destruct h as [e [c'|] [k|] s]; unfold cancels; simpl in *; try done;
    destruct (Nat.eqb_spec c' c) as [->|]; done.
Qed.

Lemma teardown_no_store old :
  Forall (fun e => match e with EvStore _ _ => False | _ => True end)
         (teardown old).
Proof. destruct old as [[e [c'|] [k|] s]|]; simpl; by repeat constructor. Qed.

Lemma installed_cancels s c cc key w :
  cancels s c (trace (installed cc key w))
  = cancels s c (trace w) + cancels s c (teardown (imports w !! key)).
Proof.
  unfold installed, cancels. simpl. rewrite count_app. simpl.
  rewrite count_app. simpl. lia.
Qed.

Lemma installed_last_store K cc key w :
  last_store K (trace (installed cc key w))
  = if decide (key = K) then Some (new_holder cc w)
    else last_store K (trace w).
Proof.
  unfold installed. simpl. rewrite last_store_app. simpl.
  rewrite foldl_app.
  rewrite (foldl_store_quiet K _ (teardown (imports w !! key)))
    by apply teardown_no_store.
  simpl. done.
Qed.

Lemma imports_installed cc key w :
  imports (installed cc key w) = <[key := new_holder cc w]> (imports w).
Proof. done. Qed.

Lemma tasks_installed cc key w :
  tasks (installed cc key w)
  = tasks w ++ [mkTask (next_ptr w) (new_holder cc w) (mkLoop true 0)].
Proof. done. Qed.

Lemma next_ptr_installed cc key w :
  next_ptr (installed cc key w) = next_ptr w + 4.
Proof. done. Qed.

Lemma panics_installed cc key w :
  count is_panic (trace (installed cc key w)) = count is_panic (trace w).
Proof.
  unfold installed. simpl. rewrite count_app. simpl.
  rewrite count_app, teardown_panic. simpl. lia.
Qed.

Lemma Inv_installed cc key w : Inv w -> Inv (installed cc key w).
Proof.
  intros [H1 H2 H3 H4 H5 H6 H7 H8 H9].
  assert (forall c, next_ptr w <= c ->
            cancels AtReplace c (teardown (imports w !! key)) = 0) as Hold.
  { intros c Hc. apply teardown_replace_other. intros h Hh Hcancel.
    destruct (H2 _ _ Hh) as (c' & k' & Hc' & _ & Hlt & _).
    rewrite Hc' in Hcancel. injection Hcancel as ->. lia. }
  split; rewrite ?imports_installed, ?tasks_installed, ?next_ptr_installed.
  - intros K. rewrite installed_last_store.
    rewrite lookup_insert. destruct (decide (key = K)); [done|apply H1].
  - intros K h. rewrite lookup_insert.
    destruct (decide (key = K)) as [<-|Hne].
    + intros [= <-]. exists (next_ptr w), cc.
      split; [done|]. split; [done|]. split; [lia|].
      rewrite installed_cancels, Hold by lia.
      destruct (H4 (next_ptr w)); lia.
    + intros HK. destruct (H2 K h HK) as (c & k & Hc & Hk & Hlt & Hz).
      exists c, k. split; [done|]. split; [done|]. split; [lia|].
      rewrite installed_cancels, Hz. simpl.
      apply teardown_replace_other. intros h0 Hh0 Hc0.
      apply Hne. apply (H3 key K h0 h); congruence.
  - intros K K' h h'. rewrite !lookup_insert.
    destruct (decide (key = K)) as [<-|HK], (decide (key = K')) as [<-|HK'];
      try done.
    + intros [= <-] Hh' Heq. simpl in Heq.
      destruct (H2 _ _ Hh') as (c & k & Hc & _ & Hlt & _).
      rewrite Hc in Heq. injection Heq as <-. lia.
    + intros Hh [= <-] Heq. simpl in Heq.
      destruct (H2 _ _ Hh) as (c & k & Hc & _ & Hlt & _).
      rewrite Hc in Heq. injection Heq as ->. lia.
    + apply H3.
  - intros c Hc. rewrite !installed_cancels.
    rewrite Hold, teardown_cleanup by lia.
    destruct (H4 c); lia.
  - intros c. rewrite installed_cancels.
    pose proof (teardown_replace_le c (imports w !! key)) as Hle.
    destruct (decide (cancels AtReplace c (teardown (imports w !! key)) = 0))
      as [Hz|Hnz]; [rewrite Hz; pose proof (H5 c); lia|].
    assert (cancels AtReplace c (trace w) = 0) as ->; [|lia].
    destruct (imports w !! key) as [h|] eqn:Hkey; [|done].
    destruct (H2 _ _ Hkey) as (c' & k' & Hc' & _ & _ & Hz').
    destruct (decide (c' = c)) as [<-|Hne]; [done|].
    exfalso. apply Hnz. apply teardown_replace_other.
    intros h0 [= <-]. rewrite Hc'. congruence.
  - intros t [Hin|Hin%list_elem_of_singleton]%elem_of_app.
    + destruct (H6 t Hin) as (c & k & Hc & Hk & Hlt & Hz).
      exists c, k. rewrite installed_cancels, teardown_cleanup, Hz.
      split; [done|]. split; [done|]. split; [lia|done].
    + subst t. exists (next_ptr w), cc.
      rewrite installed_cancels, teardown_cleanup.
      split; [done|]. split; [done|]. split; [lia|].
      destruct (H4 (next_ptr w)); lia.
  - rewrite fmap_app. apply NoDup_app. split; [done|]. split.
    + intros x Hx. simpl. intros ->%list_elem_of_singleton.
      apply list_elem_of_fmap in Hx as (t & Ht & Hin).
      destruct (H6 t Hin) as (c & k & Hc & _ & Hlt & _).
      rewrite Hc in Ht. injection Ht as Ht. lia.
    + simpl. apply NoDup_singleton.
  - intros c. rewrite installed_cancels, teardown_cleanup.
    pose proof (H8 c). lia.
  - by rewrite panics_installed.
Qed.

(** *** A supervisor step keeps the invariant *)

(** What one scheduled iteration of supervisor [i] leaves behind: the
    loop body ran (a frame of supervisor events), and then either the
    deferred cleanup ran and the goroutine is gone, or the goroutine is
    parked for ever, or it stays in the pool with a new loop state. *)
Lemma supervise_cases i env w t c k :
  tasks w !! i = Some t ->
  cancel (t_holder t) = Some c -> conn (t_holder t) = Some k ->
  exists w1, frame supervisor_event w w1 /\
    ((supervise i env w).2
       = add_events (with_tasks w1 (delete i (tasks w1)))
           [EvCancel AtCleanup c; EvConnClose AtCleanup k] \/
     (supervise i env w).2 = with_tasks w1 (delete i (tasks w1)) \/
     exists st,
       (supervise i env w).2
       = with_tasks w1 (<[i := mkTask (t_ctx t) (t_holder t) st]> (tasks w1))).
Proof.
  intros Ht Hc Hk. remember ((supervise i env w).2) as res eqn:Hres.
  unfold supervise, get_task in Hres.
  unfold mbind at 1 in Hres. unfold Eff_bind in Hres. rewrite Ht in Hres.
  unfold mbind at 1 in Hres. unfold Eff_bind in Hres.
  pose proof (loop_body_frame (t_ctx t) (t_holder t) (t_state t) env w
                ltac:(by rewrite Hk)) as Hfr.
  destruct (loop_body (t_ctx t) (t_holder t) (t_state t) env w)
    as [[| |st] w1].
  - exists w1. split; [exact Hfr|]. left. subst res.
    unfold cleanup. rewrite Hc, Hk. eff_simpl.
    unfold add_events, with_tasks. simpl. app_norm. done.
  - exists w1. split; [exact Hfr|]. right. left. by subst res.
  - exists w1. split; [exact Hfr|]. right. right. exists st. by subst res.
Qed.

Lemma elem_of_delete_lookup {A} (l : list A) i x :
  x ∈ delete i l -> exists j, j <> i /\ l !! j = Some x.
Proof.
  intros (j & Hj)%list_elem_of_lookup. rewrite list_lookup_delete in Hj.
  destruct (decide (j < i)); eexists; (split; [|exact Hj]); lia.
Qed.

Lemma Inv_drop_task w i : Inv w -> Inv (with_tasks w (delete i (tasks w))).
Proof.
  intros [H1 H2 H3 H4 H5 H6 H7 H8 H9]. split; simpl; try done.
  - intros t Hin. apply H6. by eapply list_elem_of_delete_inv.
  - rewrite list_fmap_delete. eapply sublist_NoDup; [exact H7|].
    apply sublist_delete.
Qed.

Lemma Inv_set_task w i t st :
  Inv w -> tasks w !! i = Some t ->
  Inv (with_tasks w (<[i := mkTask (t_ctx t) (t_holder t) st]> (tasks w))).
Proof.
  intros [H1 H2 H3 H4 H5 H6 H7 H8 H9] Ht. split; simpl; try done.
  - intros t' (j & Hj)%list_elem_of_lookup.
    destruct (decide (i = j)) as [<-|Hne].
    + rewrite list_lookup_insert_eq in Hj by (by eapply lookup_lt_Some).
      injection Hj as <-. simpl. apply H6.
      apply list_elem_of_lookup. eauto.
    + rewrite list_lookup_insert_ne in Hj by done.
      apply H6. apply list_elem_of_lookup. eauto.
  - rewrite list_fmap_insert. simpl.
    rewrite list_insert_id; [done|].
    by rewrite list_lookup_fmap, Ht.
Qed.

Lemma Inv_cleanup w i t c k :
  Inv w -> tasks w !! i = Some t ->
  cancel (t_holder t) = Some c -> conn (t_holder t) = Some k ->
  Inv (add_events (with_tasks w (delete i (tasks w)))
         [EvCancel AtCleanup c; EvConnClose AtCleanup k]).
Proof.
  intros HI Ht Hc Hk. pose proof HI as [H1 H2 H3 H4 H5 H6 H7 H8 H9].
  assert (forall c', cancels AtReplace c'
            (trace w ++ [EvCancel AtCleanup c; EvConnClose AtCleanup k])
          = cancels AtReplace c' (trace w)) as Hrep.
  { intros c'. rewrite cancels_app. unfold cancels at 2. simpl. lia. }
  assert (forall c', cancels AtCleanup c'
            (trace w ++ [EvCancel AtCleanup c; EvConnClose AtCleanup k])
          = cancels AtCleanup c' (trace w)
            + (if decide (c = c') then 1 else 0)) as Hcl.
  { intros c'. rewrite cancels_app. unfold cancels at 2. simpl.
    destruct (Nat.eqb_spec c c'), (decide (c = c')); simpl; try done; lia. }
  assert (cancels AtCleanup c (trace w) = 0 /\ c < next_ptr w) as [Hzero Hlt].
  { destruct (H6 t) as (c' & k' & Hc' & _ & ? & ?);
      [apply list_elem_of_lookup; eauto|].
    rewrite Hc in Hc'. by injection Hc' as <-. }
  split; simpl.
  - intros K. rewrite last_store_app. simpl. apply H1.
  - intros K h HK. destruct (H2 K h HK) as (c' & k' & ? & ? & ? & ?).
    exists c', k'. by rewrite Hrep.
  - done.
  - intros c' Hle. rewrite Hrep, Hcl. destruct (H4 c' Hle) as [-> ->].
    destruct (decide (c = c')); [lia|done].
  - intros c'. rewrite Hrep. apply H5.
  - intros t' (j & Hne & Hj)%elem_of_delete_lookup.
    destruct (H6 t') as (c' & k' & Hc' & Hk' & Hlt' & Hz');
      [apply list_elem_of_lookup; eauto|].
    exists c', k'. rewrite Hcl, Hz'. repeat split; try done.
    destruct (decide (c = c')) as [<-|]; [|done].
    exfalso. apply Hne.
    apply (NoDup_lookup _ j i (Some c) H7).
    + rewrite list_lookup_fmap, Hj. simpl. by rewrite Hc'.
    + rewrite list_lookup_fmap, Ht. simpl. by rewrite Hc.
  - rewrite list_fmap_delete. eapply sublist_NoDup; [exact H7|].
    apply sublist_delete.
  - intros c'. rewrite Hcl. destruct (decide (c = c')) as [<-|].
    + rewrite Hzero. lia.
    + pose proof (H8 c'). lia.
  - rewrite count_app, H9. done.
Qed.

Lemma Inv_supervise i env w : Inv w -> Inv (supervise i env w).2.
Proof.
  intros HI. destruct (tasks w !! i) as [t|] eqn:Ht.
  - destruct (tasks_wf w HI t) as (c & k & Hc & Hk & _);
      [apply list_elem_of_lookup; eauto|].
    destruct (supervise_cases i env w t c k Ht Hc Hk)
      as (w1 & Hfr & [Hr|[Hr|(st & Hr)]]); rewrite Hr;
      assert (Inv w1) as HI1
        by (eapply Inv_frame; [exact HI|];
            eapply frame_weaken; [apply supervisor_quiet|exact Hfr]);
      assert (tasks w1 !! i = Some t) as Ht1
        by (destruct Hfr as (_ & -> & _); done).
    + by apply (Inv_cleanup w1 i t).
    + by apply Inv_drop_task.
    + by apply Inv_set_task.
  - unfold supervise, get_task. unfold mbind, Eff_bind. by rewrite Ht.
Qed.

Lemma Inv_SetupConfig req env w : Inv w -> Inv (SetupConfig req env w).2.
Proof.
  intros HI.
  destruct (SetupConfig_cases req env w) as [Hq|(w1 & Hfr & _ & Hres)].
  - eapply Inv_frame; [exact HI|].
    eapply frame_weaken; [apply prelude_quiet|exact Hq].
  - rewrite Hres. simpl. apply Inv_installed.
    eapply Inv_frame; [exact HI|].
    eapply frame_weaken; [apply prelude_quiet|exact Hfr].
Qed.

Lemma Inv_exec w a : Inv w -> Inv (exec w a).
Proof.
  intros HI. destruct a as [req env|i env]; unfold exec, act.
  - unfold mbind, Eff_bind.
    pose proof (Inv_SetupConfig req env w HI) as H.
    by destruct (SetupConfig req env w).
  - by apply Inv_supervise.
Qed.

Lemma run_snoc acts a : run (acts ++ [a]) = exec (run acts) a.
Proof. unfold run. by rewrite foldl_app. Qed.

(** Every world that a schedule of setup calls and supervisor
    iterations leads to satisfies the invariant. *)
Lemma Inv_run acts : Inv (run acts).
Proof.
  induction acts as [|a acts IH] using rev_ind; [apply Inv_init|].
  rewrite run_snoc. by apply Inv_exec.
Qed.

(** The nil guards of the replacement path and the dereferences of the
    supervisor never meet a nil [cancel] or [conn]: no reachable
    history has a panic. *)
Lemma run_no_panic acts : count is_panic (trace (run acts)) = 0.
Proof. apply no_panic, Inv_run. Qed.

(** ** Every exit of a setup *)

(** The RPCs of a prefix all succeed, or one of them is the first to
    fail. *)
Lemma first_failure (f : nat -> option error) (n : nat) :
  (forall i, i < n -> f i = None) \/
  (exists j err, j < n /\ (forall i, i < j -> f i = None) /\ f j = Some err).
Proof.
  induction n as [|n [IH|(j & err & Hj & Hpass & Hfail)]].
  - left. intros i Hi. lia.
  - destruct (f n) as [err|] eqn:Hn.
    + right. exists n, err. split; [lia|]. by split.
    + left. intros i Hi. destruct (decide (i = n)) as [->|]; [done|].
      apply IH. lia.
  - right. exists j, err. split; [lia|]. by split.
Qed.

Lemma setupConfig_flush_failure instance configName config env err w :
  newClient env = None ->
  (forall i, i < length (Routes config) -> insertRoute env i = None) ->
  flushRoutes env = Some err ->
  setupConfig instance configName config env w
  = (Some (Wrapf ("failed to flush static routes for " +:+ configName +:+ ": ")
             err),
     dialled w (inserts (next_ptr w) (mkTarget configName instance)
                  (Routes config)
                ++ [EvFlushRoutes (next_ptr w) (mkTarget configName instance)])).
Proof.
  intros Hn Hi Hf. unfold setupConfig. rewrite Hn.
  unfold mbind at 1. unfold Eff_bind, alloc.
  unfold mbind at 1. unfold Eff_bind, emit.
  unfold mbind at 1. unfold Eff_bind.
  rewrite insertStatic_ok by done.
  unfold mbind at 1. unfold Eff_bind, emit. rewrite Hf.
  unfold dialled, add_events. simpl. app_norm. done.
Qed.

(** [SetupConfig] always leaves by one of the seven exits. *)
Lemma SetupConfig_outcome req env w :
  SetupOutcome req env w (SetupConfig req env w).
Proof.
  unfold SetupConfig.
  destruct (unmarshal env (req_Config req)) as [cfg|err] eqn:Hu;
    [|by apply OutBadConfig].
  unfold mbind, Eff_bind.
  destruct (newClient env) as [err|] eqn:Hn.
  { unfold setupConfig. rewrite Hn. by eapply OutNoClient. }
  destruct (first_failure (insertRoute env) (length (Routes cfg)))
    as [Hall|(j & err & Hj & Hpass & Hfail)].
  - destruct (flushRoutes env) as [err|] eqn:Hf.
    { rewrite (setupConfig_flush_failure _ _ _ _ err) by done.
      by eapply OutFlushFailed. }
    rewrite setupConfig_prelude by done. cbv zeta.
    destruct (Sockets (BirdImport cfg)) as [|sk sks] eqn:Hs;
      cbn [length Nat.eqb].
    + cbv beta iota. unfold mret, Eff_ret.
      assert (add_events (after_prelude (req_Instance req) (req_ConfigName req)
                            cfg w) [EvConnClose AtNoSockets (next_ptr w)]
              = dialled w (inserts (next_ptr w)
                             (mkTarget (req_ConfigName req) (req_Instance req))
                             (Routes cfg)
                           ++ [EvFlushRoutes (next_ptr w)
                                 (mkTarget (req_ConfigName req)
                                           (req_Instance req));
                               EvConnClose AtNoSockets (next_ptr w)])) as ->.
      { unfold dialled, add_events, after_prelude.
        cbn [trace imports slots next_ptr tasks]. f_equal.
        rewrite <- ?app_assoc. cbn [app]. by rewrite <- ?app_assoc. }
      by eapply OutStaticOnly.
    + destruct (feedRIB env) as [err|] eqn:Hfeed.
      * rewrite (processBirdImport_stream_failure _ _ _ _ err) by done.
        cbv beta iota. unfold mret, Eff_ret.
        assert (mkWorld
                  (imports (after_prelude (req_Instance req)
                              (req_ConfigName req) cfg w))
                  (slots (after_prelude (req_Instance req)
                            (req_ConfigName req) cfg w))
                  (S (next_ptr (after_prelude (req_Instance req)
                                  (req_ConfigName req) cfg w)))
                  (tasks (after_prelude (req_Instance req)
                            (req_ConfigName req) cfg w))
                  (trace (after_prelude (req_Instance req)
                            (req_ConfigName req) cfg w)
                   ++ [EvFeedRIB (next_ptr w)
                         (next_ptr (after_prelude (req_Instance req)
                                      (req_ConfigName req) cfg w));
                       EvCancel AtStreamFail
                         (next_ptr (after_prelude (req_Instance req)
                                      (req_ConfigName req) cfg w))])
                = mkWorld (imports w) (slots w) (S (S (next_ptr w))) (tasks w)
                    (trace w ++ EvNewClient (next_ptr w)
                       :: inserts (next_ptr w)
                            (mkTarget (req_ConfigName req) (req_Instance req))
                            (Routes cfg)
                       ++ [EvFlushRoutes (next_ptr w)
                             (mkTarget (req_ConfigName req)
                                       (req_Instance req));
                           EvFeedRIB (next_ptr w) (S (next_ptr w));
                           EvCancel AtStreamFail (S (next_ptr w))])) as ->.
        { unfold after_prelude. cbn [trace imports slots next_ptr tasks].
          f_equal. rewrite <- ?app_assoc. cbn [app].
          by rewrite <- ?app_assoc. }
        eapply OutStreamFailed; try eassumption. by rewrite Hs.
      * rewrite processBirdImport_install by done.
        cbv beta iota. unfold mret, Eff_ret.
        assert (after_prelude (req_Instance req) (req_ConfigName req) cfg w
                = dialled w (inserts (next_ptr w)
                               (mkTarget (req_ConfigName req)
                                         (req_Instance req))
                               (Routes cfg)
                             ++ [EvFlushRoutes (next_ptr w)
                                   (mkTarget (req_ConfigName req)
                                             (req_Instance req))])) as ->
          by reflexivity.
        eapply OutInstalled; try eassumption. by rewrite Hs.
  - destruct (Routes cfg !! j) as [r|] eqn:Hr;
      [|apply lookup_ge_None in Hr; lia].
    rewrite (setupConfig_insert_abort _ _ _ _ j r err) by done.
    by eapply OutInsertFailed.
Qed.

Lemma emitted_refl w : emitted w w = [].
Proof. unfold emitted. by rewrite drop_all. Qed.

Lemma emitted_dialled w evs :
  emitted w (dialled w evs) = EvNewClient (next_ptr w) :: evs.
Proof. by apply emitted_app. Qed.

Lemma inserts_prelude cc target routes :
  Forall prelude_event (inserts cc target routes).
Proof. induction routes; by constructor. Qed.

Lemma SetupConfig_installs req env w cfg :
  unmarshal env (req_Config req) = inl cfg ->
  newClient env = None ->
  (forall i, i < length (Routes cfg) -> insertRoute env i = None) ->
  flushRoutes env = None ->
  Sockets (BirdImport cfg) <> [] ->
  feedRIB env = None ->
  SetupConfig req env w
  = (None,
     installed (next_ptr w) (mkKey (req_ConfigName req) (req_Instance req))
       (dialled w (inserts (next_ptr w)
                     (mkTarget (req_ConfigName req) (req_Instance req))
                     (Routes cfg)
                   ++ [EvFlushRoutes (next_ptr w)
                         (mkTarget (req_ConfigName req)
                                   (req_Instance req))]))).
Proof.
  intros Hu Hc Hi Hf Hs Hfe.
  pose proof (SetupConfig_outcome req env w) as Hout.
  inversion Hout as [err Hu'|cfg' err Hu' Hc'|cfg' j r err Hu' Hc' Hr Hb Hj
                    |cfg' err Hu' Hc' Hi' Hf'|cfg' Hu' Hc' Hi' Hf' Hs'
                    |cfg' err Hu' Hc' Hi' Hf' Hs' Hfe'
                    |cfg' Hu' Hc' Hi' Hf' Hs' Hfe'];
    rewrite Hu in Hu'; try discriminate; injection Hu' as <-;
    try congruence.
  apply lookup_lt_Some in Hr. rewrite (Hi j Hr) in Hj. discriminate.
Qed.

Lemma SetupConfig_declines req env w :
  ~ installs req env ->
  imports (SetupConfig req env w).2 = imports w /\
  tasks (SetupConfig req env w).2 = tasks w /\
  Forall prelude_event (emitted w (SetupConfig req env w).2).
Proof.
  intros Hno. pose proof (SetupConfig_outcome req env w) as Hout.
  destruct (SetupConfig req env w) as [res w'] eqn:Hres. simpl.
  inversion Hout as [err Hu|cfg err Hu Hc|cfg j r err Hu Hc Hr Hb Hj
                    |cfg err Hu Hc Hi Hf|cfg Hu Hc Hi Hf Hs
                    |cfg err Hu Hc Hi Hf Hs Hfe|cfg Hu Hc Hi Hf Hs Hfe];
    subst; clear Hout.
  - by rewrite emitted_refl.
  - by rewrite emitted_refl.
  - rewrite emitted_dialled. repeat split; try done.
    constructor; [done|apply inserts_prelude].
  - rewrite emitted_dialled. repeat split; try done.
    constructor; [done|]. apply Forall_app_2; [apply inserts_prelude|].
    by constructor.
  - rewrite emitted_dialled. repeat split; try done.
    constructor; [done|]. apply Forall_app_2; [apply inserts_prelude|].
    by repeat constructor.
  - repeat split; try done. erewrite emitted_app; [|simpl; reflexivity].
    constructor; [done|]. apply Forall_app_2; [apply inserts_prelude|].
    by repeat constructor.
  - destruct Hno. by exists cfg.
Qed.

(** ** The registry: one holder per key, the latest one *)

Lemma last_store_snoc K tr e :
  last_store K (tr ++ [e])
  = match e with
    | EvStore K' h => if decide (K' = K) then Some h else last_store K tr
    | _ => last_store K tr
    end.
Proof. rewrite last_store_app. by destruct e. Qed.

Lemma latest_install_snoc_other K h tr e :
  (forall h', e <> EvStore K h') ->
  latest_install K h (tr ++ [e]) <-> latest_install K h tr.
Proof.
  intros He. split.
  - intros (l1 & l2 & Heq & Hno).
    destruct l2 as [|x l2 _] using rev_ind.
    + apply (app_inj_tail tr l1) in Heq as [_ ->]. by destruct (He h).
    + rewrite app_comm_cons, app_assoc in Heq.
      apply app_inj_tail in Heq as [-> ->].
      exists l1, l2. split; [done|]. intros h' Hin.
      apply (Hno h'). apply elem_of_app. by left.
  - intros (l1 & l2 & -> & Hno). exists l1, (l2 ++ [e]).
    split; [by rewrite <- app_assoc|].
    intros h' [Hin|Hin%list_elem_of_singleton]%elem_of_app.
    + by apply (Hno h').
    + by apply (He h').
Qed.

Lemma latest_install_snoc_same K h h0 tr :
  latest_install K h (tr ++ [EvStore K h0]) <-> h = h0.
Proof.
  split.
  - intros (l1 & l2 & Heq & Hno).
    destruct l2 as [|x l2 _] using rev_ind.
    + apply (app_inj_tail tr l1) in Heq as [_ Heq]. congruence.
    + rewrite app_comm_cons, app_assoc in Heq.
      apply app_inj_tail in Heq as [_ <-].
      destruct (Hno h0). apply elem_of_app. right. constructor.
  - intros ->. exists tr, []. split; [done|].
    intros h' Hin. by apply elem_of_nil in Hin.
Qed.

Lemma last_store_latest K h tr :
  last_store K tr = Some h <-> latest_install K h tr.
Proof.
  induction tr as [|e tr IH] using rev_ind.
  - split; [done|]. intros (l1 & l2 & Heq & _). by destruct l1.
  - rewrite last_store_snoc.
    destruct e as [| | | | | | | | | |K' h0| | | |];
      try (rewrite latest_install_snoc_other by done; exact IH).
    destruct (decide (K' = K)) as [->|Hne].
    + rewrite latest_install_snoc_same. split; congruence.
    + rewrite latest_install_snoc_other by congruence. exact IH.
Qed.

(** C1: in every world that a schedule of [SetupConfig] calls and
    supervisor iterations reaches, the registry holds under a key
    exactly the holder that was stored under it most recently, so a key
    that was ever installed has one holder, the latest.  A further
    [SetupConfig] call whose setup goes through installs: it returns
    nil, the registry then has a fresh holder under the key of the
    request and a supervisor was started for it.  On the way it takes
    the lock, and when the key is present it invokes the predecessor's
    [cancel] and closes the predecessor's connection, then writes the
    new holder under the key, all before the lock is released; the
    other keys keep their holders.  A call whose setup does not go
    through leaves the registry and the supervisors as they are. *)
Theorem registry_holds_latest_install acts :
  let w := run acts in
  (forall K h, imports w !! K = Some h <-> latest_install K h (trace w)) /\
  (forall req env,
     let key := mkKey (req_ConfigName req) (req_Instance req) in
     let res := SetupConfig req env w in
     (~ installs req env ->
      imports res.2 = imports w /\ tasks res.2 = tasks w /\
      Forall prelude_event (emitted w res.2)) /\
     (installs req env ->
      exists pre ctx h,
        res.1 = None /\
        emitted w res.2 = pre ++ locked_part key (imports w !! key) ctx h /\
        Forall prelude_event pre /\
        imports res.2 = <[key := h]> (imports w) /\
        imports res.2 !! key = Some h /\
        latest_install key h (trace res.2) /\
        tasks res.2 = tasks w ++ [mkTask ctx h (mkLoop true 0)] /\
        cancel h = Some ctx /\ next_ptr w < ctx /\
        (forall K' h', imports w !! K' = Some h' -> h' <> h) /\
        (forall old, imports w !! key = Some old ->
           exists c k,
             cancel old = Some c /\ conn old = Some k /\ c < ctx /\
             locked_part key (Some old) ctx h
             = [EvLock; EvCancel AtReplace c; EvConnClose AtReplace k;
                EvStore key h; EvGo ctx h; EvUnlock]))).
Proof.
  intros w. pose proof (Inv_run acts) as HI. fold w in HI. split.
  - intros K h. rewrite (registry_latest w HI). apply last_store_latest.
  - intros req env key res. split; [apply SetupConfig_declines|].
    intros (cfg & Hu & Hc & Hi & Hf & Hs & Hfe). subst res.
    rewrite (SetupConfig_installs req env w cfg) by done. fold key.
    cbn [fst snd].
    set (target := mkTarget (req_ConfigName req) (req_Instance req)).
    set (evs := inserts (next_ptr w) target (Routes cfg)
                ++ [EvFlushRoutes (next_ptr w) target]).
    assert (Forall prelude_event evs) as Hevs.
    { apply Forall_app_2; [apply inserts_prelude|]. by constructor. }
    exists (EvNewClient (next_ptr w) :: evs
            ++ [EvFeedRIB (next_ptr w) (S (next_ptr w))]),
      (S (next_ptr w)), (new_holder (next_ptr w) (dialled w evs)).
    assert (emitted w (installed (next_ptr w) key (dialled w evs))
            = (EvNewClient (next_ptr w) :: evs
               ++ [EvFeedRIB (next_ptr w) (S (next_ptr w))])
              ++ locked_part key (imports w !! key) (S (next_ptr w))
                   (new_holder (next_ptr w) (dialled w evs))) as Hem.
    { apply emitted_app. unfold installed, locked_part. simpl. by app_norm. }
    split; [done|]. split; [exact Hem|].
    split; [constructor; [done|]; apply Forall_app_2; [done|];
            by repeat constructor|].
    split; [done|]. split; [apply lookup_insert_eq|].
    split.
    { apply last_store_latest. rewrite installed_last_store.
      by destruct (decide (key = key)). }
    split; [done|]. split; [done|]. split; [lia|]. split.
    + intros K' h' HK' ->.
      destruct (holders_wf w HI _ _ HK') as (c & k & Hcc & _ & Hlt & _).
      unfold new_holder in Hcc. simpl in Hcc. injection Hcc as <-. lia.
    + intros old Hold.
      destruct (holders_wf w HI _ _ Hold) as (c & k & Hcc & Hk & Hlt' & _).
      exists c, k. unfold locked_part, teardown. rewrite Hcc, Hk.
      repeat split; try done. lia.
Qed.

(** ** Cancellation counts *)

(** C5, as the code has it: in every reachable world each context was
    cancelled at most once on each teardown path, that is at most once
    by a replacement in the registry and at most once by the terminal
    cleanup of its supervisor, so at most twice over the two paths. *)
Theorem cancel_once_per_teardown_path acts c :
  cancels AtReplace c (trace (run acts)) <= 1 /\
  cancels AtCleanup c (trace (run acts)) <= 1 /\
  cancels AtReplace c (trace (run acts))
    + cancels AtCleanup c (trace (run acts)) <= 2.
Proof.
  pose proof (Inv_run acts) as HI.
  pose proof (replace_once _ HI c). pose proof (cleanup_once _ HI c). lia.
Qed.

(** ** Supervisor termination leaves the registry alone *)

Lemma SetupConfig_keeps_keys req env w K :
  is_Some (imports w !! K) -> is_Some (imports (SetupConfig req env w).2 !! K).
Proof.
  intros HK.
  destruct (SetupConfig_cases req env w) as [(Hi & _)|(w1 & Hfr & _ & Hres)].
  - by rewrite Hi.
  - rewrite Hres. simpl. destruct Hfr as (Hi & _).
    rewrite lookup_insert. case_decide; [by eexists|by rewrite Hi].
Qed.

Lemma supervise_imports acts i env :
  imports (supervise i env (run acts)).2 = imports (run acts).
Proof.
  pose proof (Inv_run acts) as HI.
  destruct (tasks (run acts) !! i) as [t|] eqn:Ht.
  - destruct (tasks_wf _ HI t) as (c & k & Hc & Hk & _);
      [apply list_elem_of_lookup; eauto|].
    destruct (supervise_cases i env _ t c k Ht Hc Hk)
      as (w1 & (Hi & _) & [Hr|[Hr|(st & Hr)]]); by rewrite Hr.
  - unfold supervise, get_task. unfold mbind, Eff_bind. by rewrite Ht.
Qed.

Lemma runBirdImportLoop_cases ctx holder envs w c k :
  cancel holder = Some c ->
  conn holder = Some k ->
  exists w1, frame supervisor_event w w1 /\
    (runBirdImportLoop ctx holder envs w
       = (true, add_events w1 [EvCancel AtCleanup c; EvConnClose AtCleanup k]) \/
     runBirdImportLoop ctx holder envs w = (false, w1)).
Proof.
  intros Hc Hk. unfold runBirdImportLoop, mbind, Eff_bind.
  pose proof (loop_frame ctx holder envs (mkLoop true 0) w
                ltac:(by rewrite Hk)) as Hfr.
  destruct (loop ctx holder (mkLoop true 0) envs w) as [[|] w1];
    exists w1; (split; [exact Hfr|]).
  - left. unfold cleanup. rewrite Hc, Hk. eff_simpl.
    unfold add_events. simpl. by app_norm.
  - right. reflexivity.
Qed.

Lemma exec_keeps_keys acts a K :
  is_Some (imports (run acts) !! K) ->
  is_Some (imports (exec (run acts) a) !! K).
Proof.
  intros HK. destruct a as [req env|i env]; unfold exec, act.
  - unfold mbind, Eff_bind.
    pose proof (SetupConfig_keeps_keys req env _ K HK) as H.
    by destruct (SetupConfig req env (run acts)).
  - by rewrite supervise_imports.
Qed.

(** C9: when [runBirdImportLoop] returns, whatever made it return, the
    last things it did are to cancel the context of its holder and to
    close the holder's connection, and the registry is as it was
    before the supervisor ran.  In the running system a supervisor
    step never changes the registry, and no step of any kind removes a
    key from it: an entry only changes when a later setup stores a
    holder over it. *)
Theorem supervisor_exit_keeps_registry ctx holder envs w c k :
  cancel holder = Some c ->
  conn holder = Some k ->
  let res := runBirdImportLoop ctx holder envs w in
  imports res.2 = imports w /\
  (res.1 = true ->
     exists evs,
       emitted w res.2
       = evs ++ [EvCancel AtCleanup c; EvConnClose AtCleanup k] /\
       Forall supervisor_event evs) /\
  (res.1 = false -> Forall supervisor_event (emitted w res.2)) /\
  (forall acts i env,
     imports (exec (run acts) (ActIter i env)) = imports (run acts)) /\
  (forall acts a K,
     is_Some (imports (run acts) !! K) ->
     is_Some (imports (exec (run acts) a) !! K)).
Proof.
  intros Hc Hk res. subst res.
  destruct (runBirdImportLoop_cases ctx holder envs w c k Hc Hk)
    as (w1 & (Hi & _ & _ & evs & He & Hq) & [Hr|Hr]); rewrite Hr; simpl.
  - split; [done|]. split; [|split; [by intros [=]|]].
    + intros _. exists evs. split; [|done].
      apply emitted_app. simpl. rewrite He. by app_norm.
    + split; [intros acts i env; apply supervise_imports|].
      intros acts a K. apply exec_keeps_keys.
  - split; [done|]. split; [by intros [=]|]. split.
    + intros _. by rewrite (emitted_app _ _ _ He).
    + split; [intros acts i env; apply supervise_imports|].
      intros acts a K. apply exec_keeps_keys.
Qed.

(** ** The theorems at work on the example *)

(** The first setup of the example goes through: on the fresh service
    it returns nil and puts a holder under ("a", 1). *)
Lemma registry_holds_latest_install_witness :
  exists ctx h,
    (SetupConfig Example.req Example.env_ok (run [])).1 = None /\
    imports (SetupConfig Example.req Example.env_ok (run [])).2
      !! mkKey "a" 1 = Some h /\
    tasks (SetupConfig Example.req Example.env_ok (run [])).2
    = [mkTask ctx h (mkLoop true 0)] /\
    cancel h = Some ctx.
Proof.
  pose proof (registry_holds_latest_install []) as H. cbv zeta in H.
  destruct H as [_ H].
  destruct (H Example.req Example.env_ok) as [_ Hin].
  destruct Hin as (pre & ctx & h & H1 & _ & _ & _ & H5 & _ & H7 & H8 & _).
  - exists Example.cfg. repeat split; try reflexivity. discriminate.
  - exists ctx, h. repeat split; assumption.
Defined.

Lemma onUpdate_cancelled_witness :
  exists ret,
    (onUpdate Example.first Example.target Example.upd_cancelled
       [Example.routeA; Example.routeB] Example.installed_once).1 = Some ret /\
    Is ret Canceled = true /\ Is ret errStreamClosed = true /\
    Is ret (Opaque 21) = true.
Proof.
  destruct (onUpdate_cancelled Example.first Example.target
              Example.upd_cancelled [Example.routeA; Example.routeB] 1
              Example.routeB Example.installed_once)
    as (ctxErr & ret & He & Hrun & _ & H1 & H2 & H3).
  - reflexivity.
  - intros i Hi. assert (i = 0) as -> by lia. split; reflexivity.
  - discriminate.
  - exists ret. rewrite Hrun. simpl in He. injection He as <-.
    split; [reflexivity|]. split; [exact H1|]. split; [exact H2|].
    apply H3. reflexivity.
Defined.

(** C6 as stated fails: the error that [onUpdate] returns for a failed
    [Send] is not the error that [Send] produced but a wrapper of it. *)
Lemma onUpdate_send_error_is_wrapped :
  (onUpdate Example.first Example.target Example.upd_send_fails
     [Example.routeA; Example.routeB] Example.installed_once).1
  = Some (Wrapf "send BIRD route update for 10.0.2.0/24 failed: " (Opaque 9)) /\
  sendAt Example.upd_send_fails 1 = Some (Opaque 9) /\
  (onUpdate Example.first Example.target Example.upd_send_fails
     [Example.routeA; Example.routeB] Example.installed_once).1
  <> sendAt Example.upd_send_fails 1.
Proof. repeat split; try reflexivity. discriminate. Qed.

Lemma onUpdate_send_error_witness :
  exists ret,
    (onUpdate Example.first Example.target Example.upd_send_fails
       [Example.routeA; Example.routeB] Example.installed_once).1 = Some ret /\
    Unwrap ret = Some (Opaque 9) /\
    emitted Example.installed_once
      (onUpdate Example.first Example.target Example.upd_send_fails
         [Example.routeA; Example.routeB] Example.installed_once).2
    = sends 3 Example.target [Example.routeA; Example.routeB].
Proof.
  destruct (onUpdate_send_error Example.first Example.target
              Example.upd_send_fails [Example.routeA; Example.routeB] 1
              Example.routeB (Opaque 9) Example.installed_once)
    as (ret & Hrun & _ & Hu & _).
  - reflexivity.
  - intros i Hi. assert (i = 0) as -> by lia. split; reflexivity.
  - reflexivity.
  - reflexivity.
  - exists ret. rewrite Hrun. split; [reflexivity|]. split; [exact Hu|].
    reflexivity.
Defined.

Lemma loop_on_run_result_witness :
  loop 2 Example.first {| streamActive := true; runBackoff := 0 |}
       [Example.iter_reader_fails; Example.iter_ctx_done]
       Example.installed_once
  = loop 2 Example.first {| streamActive := false; runBackoff := 1 |}
         [Example.iter_ctx_done]
         (add_events Example.installed_once
            [EvRun 5 2; EvCloseAndRecv 3; EvSleep 0]).
Proof.
  assert (reaches_run 2 Example.first (mkLoop true 0)
            Example.iter_reader_fails Example.installed_once
            Example.installed_once) as Hreach.
  { split; [reflexivity|]. exists 1. split; [reflexivity|].
    split; [discriminate|]. left. split; reflexivity. }
  destruct (loop_on_run_result 2 Example.first (mkLoop true 0)
              Example.iter_reader_fails [Example.iter_ctx_done]
              Example.installed_once Example.installed_once Hreach)
    as (_ & _ & H).
  destruct (H (Opaque 5) eq_refl eq_refl eq_refl) as (_ & _ & Hagain).
  exact (Hagain eq_refl).
Defined.

Lemma setupConfig_static_routes_witness :
  setupConfig 1 "a" Example.cfg_static Example.env_ok NewModuleService
  = (None,
     {| imports := ∅; slots := ∅; next_ptr := 2; tasks := [];
        trace := [EvNewClient 1;
                  EvInsertRoute 1 Example.target "10.0.0.0/24" "192.0.2.1";
                  EvFlushRoutes 1 Example.target;
                  EvConnClose AtNoSockets 1] |}).
Proof.
  destruct (setupConfig_static_routes 1 "a" Example.cfg_static Example.env_ok
              NewModuleService) as (_ & H).
  - reflexivity.
  - intros i Hi. reflexivity.
  - reflexivity.
  - destruct (H eq_refl) as (Hres & _). exact Hres.
Defined.

Lemma SetupConfig_stream_open_failure_witness :
  (SetupConfig Example.req Example.env_no_stream NewModuleService).1
  = Some (Status Internal "failed to setup configuration: "
            (Wrapf "failed to setup initial BIRD import stream: " (Opaque 14))) /\
  imports (SetupConfig Example.req Example.env_no_stream NewModuleService).2
  = ∅ /\
  emitted NewModuleService
    (SetupConfig Example.req Example.env_no_stream NewModuleService).2
  = [EvNewClient 1;
     EvInsertRoute 1 Example.target "10.0.0.0/24" "192.0.2.1";
     EvFlushRoutes 1 Example.target;
     EvFeedRIB 1 2; EvCancel AtStreamFail 2] /\
  (forall s, EvConnClose s 1
             ∉ emitted NewModuleService
                 (SetupConfig Example.req Example.env_no_stream
                    NewModuleService).2).
Proof.
  destruct (SetupConfig_stream_open_failure Example.req Example.env_no_stream
              Example.cfg (Opaque 14) NewModuleService)
    as (H1 & H2 & _ & H4 & H5).
  - reflexivity.
  - reflexivity.
  - intros i Hi. reflexivity.
  - reflexivity.
  - discriminate.
  - reflexivity.
  - split; [exact H1|]. split; [exact H2|]. split; [exact H4|exact H5].
Defined.

Lemma supervisor_exit_keeps_registry_witness :
  imports (runBirdImportLoop 2 Example.first [Example.iter_clean]
             Example.installed_once).2
  = imports Example.installed_once /\
  exists evs,
    emitted Example.installed_once
      (runBirdImportLoop 2 Example.first [Example.iter_clean]
         Example.installed_once).2
    = evs ++ [EvCancel AtCleanup 2; EvConnClose AtCleanup 1].
Proof.
  destruct (supervisor_exit_keeps_registry 2 Example.first
              [Example.iter_clean] Example.installed_once 2 1)
    as (H1 & H2 & _).
  - reflexivity.
  - reflexivity.
  - split; [exact H1|].
    destruct (H2 eq_refl) as (evs & He & _). exists evs. exact He.
Defined.

(** C5 as stated fails: the holder [Example.first] is installed, then
    replaced, then its supervisor returns; [cancel] of its context 2 is
    invoked by the replacement and again by the cleanup. *)
Lemma cancel_invoked_twice :
  trace (run Example.replacement)
  = [EvNewClient 1;
     EvInsertRoute 1 Example.target "10.0.0.0/24" "192.0.2.1";
     EvFlushRoutes 1 Example.target;
     EvFeedRIB 1 2; EvLock;
     EvStore (mkKey "a" 1) Example.first; EvGo 2 Example.first; EvUnlock;
     EvNewClient 6;
     EvInsertRoute 6 Example.target "10.0.0.0/24" "192.0.2.1";
     EvFlushRoutes 6 Example.target;
     EvFeedRIB 6 7; EvLock;
     EvCancel AtReplace 2; EvConnClose AtReplace 1;
     EvStore (mkKey "a" 1) (mkHolder 10 (Some 7) (Some 6) 9);
     EvGo 7 (mkHolder 10 (Some 7) (Some 6) 9); EvUnlock;
     EvCancel AtCleanup 2; EvConnClose AtCleanup 1] /\
  cancel Example.first = Some 2 /\
  cancel_calls 2 (trace (run Example.replacement)) = 2 /\
  ~ cancel_calls 2 (trace (run Example.replacement)) <= 1.
Proof.
  split; [vm_compute; reflexivity|]. split; [reflexivity|].
  assert (cancel_calls 2 (trace (run Example.replacement)) = 2) as ->
    by (vm_compute; reflexivity).
  split; [reflexivity|lia].
Qed.

(** * Further properties of the coordinator *)

(** ** The errors and the failures of a setup *)

(** X1: every error that [SetupConfig] returns is a gRPC status error.
    Its code is [InvalidArgument] exactly when the configuration does
    not parse, and then nothing at all was done; in every other case it
    is [Internal].  The cause is formatted into the message with [%v],
    so [errors.Is] finds neither context error nor the stream sentinel
    in what the caller gets. *)
Theorem SetupConfig_error_codes req env w err :
  (SetupConfig req env w).1 = Some err ->
  exists code msg cause,
    err = Status code msg cause /\
    (code = InvalidArgument <->
       exists e, unmarshal env (req_Config req) = inr e) /\
    (code = InvalidArgument \/ code = Internal) /\
    (code = InvalidArgument -> (SetupConfig req env w).2 = w) /\
    Is err Canceled = false /\ Is err DeadlineExceeded = false /\
    Is err errStreamClosed = false.
Proof.
  intros Herr. pose proof (SetupConfig_outcome req env w) as Hout.
  destruct (SetupConfig req env w) as [res w'] eqn:Hres. simpl in Herr.
  subst res. inversion Hout; subst; clear Hout;
    do 3 eexists; (split; [reflexivity|]);
    (split; [split; [first [by intros [=] | intros _; eauto]
                    | first [by intros _ | intros [e He]; congruence]]|]);
    (split; [first [by left | by right]|]);
    (split; [first [by intros [=] | by intros _]|]);
    repeat split; reflexivity.
Qed.

Lemma SetupConfig_error_codes_witness :
  (SetupConfig Example.req Example.env_bad_yaml NewModuleService)
  = (Some (Status InvalidArgument "failed to unmarshal configuration: "
             (Opaque 30)), NewModuleService).
Proof.
  destruct (SetupConfig_error_codes Example.req Example.env_bad_yaml
              NewModuleService
              (Status InvalidArgument "failed to unmarshal configuration: "
                 (Opaque 30)) eq_refl)
    as (code & msg & cause & Heq & _ & _ & Hw & _).
  injection Heq as <- _ _.
  rewrite <- (Hw eq_refl) at 2. reflexivity.
Defined.

(** X2: a setup that returns an error has installed nothing: the
    registry, the stream slots and the pool of supervisors are as they
    were, the lock was never taken, and all it did was to dial, insert,
    flush, try to open the stream and cancel the fresh context; in
    particular it closed no connection, its own included. *)
Theorem SetupConfig_failure_installs_nothing req env w err :
  (SetupConfig req env w).1 = Some err ->
  imports (SetupConfig req env w).2 = imports w /\
  slots (SetupConfig req env w).2 = slots w /\
  tasks (SetupConfig req env w).2 = tasks w /\
  Forall prelude_event (emitted w (SetupConfig req env w).2) /\
  (forall s c, EvConnClose s c ∉ emitted w (SetupConfig req env w).2).
Proof.
  intros Herr. pose proof (SetupConfig_outcome req env w) as Hout.
  destruct (SetupConfig req env w) as [res w'] eqn:Hres. simpl in *.
  subst res. inversion Hout; subst; clear Hout.
  - rewrite emitted_refl. repeat split; try done.
    intros s c Hin. by apply elem_of_nil in Hin.
  - rewrite emitted_refl. repeat split; try done.
    intros s c Hin. by apply elem_of_nil in Hin.
  - rewrite emitted_dialled. repeat split; try done.
    + constructor; [done|apply inserts_prelude].
    + intros s c [Hin|Hin]%elem_of_cons; [discriminate|].
      by apply inserts_no_close in Hin.
  - rewrite emitted_dialled. repeat split; try done.
    + constructor; [done|]. apply Forall_app_2; [apply inserts_prelude|].
      by repeat constructor.
    + intros s c [Hin|[Hin|Hin]%elem_of_app]%elem_of_cons; [discriminate| |].
      * by apply inserts_no_close in Hin.
      * apply list_elem_of_singleton in Hin. discriminate.
  - erewrite emitted_app; [|reflexivity]. repeat split; try done.
    + constructor; [done|]. apply Forall_app_2; [apply inserts_prelude|].
      by repeat constructor.
    + intros s c [Hin|[Hin|Hin]%elem_of_app]%elem_of_cons; [discriminate| |].
      * by apply inserts_no_close in Hin.
      * repeat (apply elem_of_cons in Hin as [Hin|Hin]; [discriminate|]).
        by apply elem_of_nil in Hin.
Qed.

Lemma SetupConfig_failure_installs_nothing_witness :
  imports (SetupConfig Example.req Example.env_insert_fails
             Example.installed_once).2
  = imports Example.installed_once /\
  tasks (SetupConfig Example.req Example.env_insert_fails
           Example.installed_once).2
  = tasks Example.installed_once.
Proof.
  destruct (SetupConfig_failure_installs_nothing Example.req
              Example.env_insert_fails Example.installed_once
              (Status Internal "failed to setup configuration: "
                 (Wrapf "failed to insert static route: " (Opaque 31)))
              eq_refl)
    as (H1 & _ & H3 & _).
  split; [exact H1|exact H3].
Defined.

(** X3: when the insert of static route [j] is the first RPC to fail,
    the routes before it and the failing one were sent to the gateway
    and stay there (nothing is rolled back), no later route is
    inserted, no flush is issued, and the caller gets [Internal]. *)
Theorem SetupConfig_insert_failure req env cfg j r err w :
  unmarshal env (req_Config req) = inl cfg ->
  newClient env = None ->
  Routes cfg !! j = Some r ->
  (forall i, i < j -> insertRoute env i = None) ->
  insertRoute env j = Some err ->
  let target := mkTarget (req_ConfigName req) (req_Instance req) in
  SetupConfig req env w
  = (Some (Status Internal "failed to setup configuration: "
             (Wrapf "failed to insert static route: " err)),
     dialled w (inserts (next_ptr w) target (take (S j) (Routes cfg)))) /\
  count is_insert (emitted w (SetupConfig req env w).2) = S j /\
  count is_flush (emitted w (SetupConfig req env w).2) = 0.
Proof.
  intros Hu Hn Hj Hpass Hfail target.
  assert (SetupConfig req env w
          = (Some (Status Internal "failed to setup configuration: "
                     (Wrapf "failed to insert static route: " err)),
             dialled w (inserts (next_ptr w) target
                          (take (S j) (Routes cfg))))) as ->.
  { unfold SetupConfig. rewrite Hu. unfold mbind, Eff_bind.
    by rewrite (setupConfig_insert_abort _ _ _ _ j r err). }
  split; [done|]. simpl.
  rewrite (emitted_app _ _ (EvNewClient (next_ptr w)
             :: inserts (next_ptr w) target (take (S j) (Routes cfg))))
    by done.
  simpl. apply lookup_lt_Some in Hj.
  assert (forall l, count is_insert (inserts (next_ptr w) target l) = length l
                    /\ count is_flush (inserts (next_ptr w) target l) = 0)
    as Hc.
  { induction l as [|x l [IH1 IH2]]; [done|]. simpl. by rewrite IH1, IH2. }
  destruct (Hc (take (S j) (Routes cfg))) as [-> ->].
  rewrite length_take. split; [lia|done].
Qed.

Lemma SetupConfig_insert_failure_witness :
  emitted NewModuleService
    (SetupConfig Example.req Example.env_insert_fails NewModuleService).2
  = [EvNewClient 1;
     EvInsertRoute 1 Example.target "10.0.0.0/24" "192.0.2.1";
     EvInsertRoute 1 Example.target "10.0.1.0/24" "192.0.2.2"].
Proof.
  destruct (SetupConfig_insert_failure Example.req Example.env_insert_fails
              Example.cfg_two 1
              {| sr_Prefix := "10.0.1.0/24"; sr_Nexthop := "192.0.2.2" |}
              (Opaque 31) NewModuleService)
    as (H & _).
  - reflexivity.
  - reflexivity.
  - reflexivity.
  - intros i Hi. assert (i = 0) as -> by lia. reflexivity.
  - reflexivity.
  - rewrite H. reflexivity.
Defined.

(** X4: when every insert succeeds and the flush fails, all static
    routes were inserted in order, the one flush was issued, the stream
    is never opened, and the error names the configuration. *)
Theorem SetupConfig_flush_failure req env cfg err w :
  unmarshal env (req_Config req) = inl cfg ->
  newClient env = None ->
  (forall i, i < length (Routes cfg) -> insertRoute env i = None) ->
  flushRoutes env = Some err ->
  let target := mkTarget (req_ConfigName req) (req_Instance req) in
  (SetupConfig req env w).1
  = Some (Status Internal "failed to setup configuration: "
            (Wrapf ("failed to flush static routes for "
                    +:+ req_ConfigName req +:+ ": ") err)) /\
  emitted w (SetupConfig req env w).2
  = EvNewClient (next_ptr w) :: inserts (next_ptr w) target (Routes cfg)
      ++ [EvFlushRoutes (next_ptr w) target] /\
  next_ptr (SetupConfig req env w).2 = S (next_ptr w).
Proof.
  intros Hu Hn Hi Hf target. unfold SetupConfig. rewrite Hu.
  unfold mbind, Eff_bind.
  rewrite (setupConfig_flush_failure _ _ _ _ err) by done.
  split; [done|]. split; [|done]. by apply emitted_app.
Qed.

Lemma SetupConfig_flush_failure_witness :
  (SetupConfig Example.req Example.env_flush_fails NewModuleService).1
  = Some (Status Internal "failed to setup configuration: "
            (Wrapf "failed to flush static routes for a: " (Opaque 32))).
Proof.
  destruct (SetupConfig_flush_failure Example.req Example.env_flush_fails
              Example.cfg_two (Opaque 32) NewModuleService) as (H & _).
  - reflexivity.
  - reflexivity.
  - intros i Hi. reflexivity.
  - reflexivity.
  - exact H.
Defined.

(** ** The update forwarder over whole batches *)

Lemma onUpdate_from_all holder target env routes idx w :
  (forall i, i < length routes ->
     ctxAt env (idx + i) = Active /\ sendAt env (idx + i) = None) ->
  onUpdate_from holder target env idx routes w
  = (None, add_events w (sends (current holder w) target routes)).
Proof.
  intros Hpass.
  rewrite (onUpdate_from_pass holder target env (length routes) idx routes w);
    [|lia|done].
  by rewrite drop_all, firstn_all.
Qed.

Lemma onUpdate_from_shift holder target env n : forall routes idx w,
  onUpdate_from holder target env (n + idx) routes w
  = onUpdate_from holder target (shift_env n env) idx routes w.
Proof.
  induction routes as [|r rest IH]; intros idx w; [done|].
  simpl. destruct (ctx_Err (ctxAt env (n + idx))); [done|].
  unfold mbind, Eff_bind.
  destruct (load (currentStream holder) w) as [s w1].
  destruct (emit _ w1) as [u w2].
  destruct (sendAt env (n + idx)); [done|].
  rewrite <- IH. by rewrite Nat.add_succ_r.
Qed.

(** X5: when the context stays active and every [Send] succeeds,
    [onUpdate] returns nil after one [Send] per route, in the order of
    the batch, all on the stream that the holder's slot names at the
    call, each carrying the target of the import and the route's own
    delete flag; nothing else happens. *)
Theorem onUpdate_sends_whole_batch holder target env routes w :
  passes env (length routes) ->
  onUpdate holder target env routes w
  = (None, add_events w (sends (current holder w) target routes)) /\
  length (emitted w (onUpdate holder target env routes w).2) = length routes /\
  (forall i r,
     routes !! i = Some r ->
     emitted w (onUpdate holder target env routes w).2 !! i
     = Some (EvSend (current holder w)
               {| Target := target; IsDelete := ToRemove r;
                  Route := FromRIBRoute r false |})).
Proof.
  intros Hpass. unfold onUpdate.
  rewrite onUpdate_from_all by (intros i Hi; by apply Hpass).
  split; [done|]. simpl.
  rewrite (emitted_app _ _ (sends (current holder w) target routes)) by done.
  unfold sends. split; [by rewrite length_map|].
  intros i r Hi. rewrite list_lookup_fmap, Hi. done.
Qed.

Lemma onUpdate_sends_whole_batch_witness :
  onUpdate Example.first Example.target Example.upd_ok
    [Example.routeA; Example.routeB] Example.installed_once
  = (None,
     add_events Example.installed_once
       [EvSend 3 {| Target := Example.target; IsDelete := false;
                    Route := FromRIBRoute Example.routeA false |};
        EvSend 3 {| Target := Example.target; IsDelete := true;
                    Route := FromRIBRoute Example.routeB false |}]).
Proof.
  destruct (onUpdate_sends_whole_batch Example.first Example.target
              Example.upd_ok [Example.routeA; Example.routeB]
              Example.installed_once) as (H & _).
  - intros i Hi. split; reflexivity.
  - exact H.
Defined.

(** X6: batches compose.  When the first of two batches goes through,
    calling [onUpdate] on the first and then on the second does what one
    call on their concatenation does: the same result, the same sends in
    the same order. *)
Theorem onUpdate_batches_compose holder target env b1 b2 w :
  passes env (length b1) ->
  (onUpdate holder target env b1 w).1 = None /\
  onUpdate holder target (shift_env (length b1) env) b2
    (onUpdate holder target env b1 w).2
  = onUpdate holder target env (b1 ++ b2) w.
Proof.
  intros Hpass. unfold onUpdate.
  rewrite onUpdate_from_all by (intros i Hi; by apply Hpass).
  split; [done|]. simpl.
  rewrite (onUpdate_from_pass holder target env (length b1) 0 (b1 ++ b2) w).
  - rewrite drop_app_length, take_app_length. simpl.
    rewrite <- onUpdate_from_shift. by rewrite Nat.add_0_r.
  - rewrite length_app. lia.
  - intros i Hi. by apply Hpass.
Qed.

Lemma onUpdate_batches_compose_witness :
  onUpdate Example.first Example.target
    (shift_env 1 Example.upd_send_fails) [Example.routeB]
    (onUpdate Example.first Example.target Example.upd_send_fails
       [Example.routeA] Example.installed_once).2
  = onUpdate Example.first Example.target Example.upd_send_fails
      [Example.routeA; Example.routeB] Example.installed_once.
Proof.
  destruct (onUpdate_batches_compose Example.first Example.target
              Example.upd_send_fails [Example.routeA] [Example.routeB]
              Example.installed_once) as (_ & H).
  - intros i Hi. simpl in Hi. assert (i = 0) as -> by lia.
    split; reflexivity.
  - exact H.
Defined.

Lemma onUpdate_from_shape holder target env : forall routes idx w,
  exists k tail,
    k <= length routes /\
    (tail = [] \/
     tail = [EvCloseAndRecv (current holder w)] /\
     exists e, (onUpdate_from holder target env idx routes w).1 = Some e /\
               Is e errStreamClosed = true) /\
    (onUpdate_from holder target env idx routes w).2
    = add_events w (sends (current holder w) target (take k routes) ++ tail) /\
    ((onUpdate_from holder target env idx routes w).1 = None ->
     k = length routes /\ tail = []).
Proof.
  induction routes as [|r rest IH]; intros idx w.
  - exists 0, []. simpl. split; [lia|]. split; [by left|].
    split; [by rewrite add_events_nil|done].
  - simpl. destruct (ctx_Err (ctxAt env idx)) as [ctxErr|] eqn:Hc.
    + exists 0, [EvCloseAndRecv (current holder w)]. eff_simpl.
      split; [lia|]. split; [|split; [done|]].
      * right. split; [done|]. unfold Join.
        destruct (closeErr env) as [ce|]; simpl; eexists;
          (split; [reflexivity|]); apply Is_Joined_member;
          repeat constructor.
      * unfold Join. by destruct (closeErr env).
    + eff_simpl. destruct (sendAt env idx) as [err|] eqn:Hs.
      * exists 1, []. simpl. split; [lia|]. split; [by left|].
        split; [|done]. rewrite ?take_0. unfold add_events. simpl.
        by rewrite ?app_nil_r.
      * destruct (IH (S idx)
                    (add_events w
                       [EvSend (current holder w)
                          {| Target := target; IsDelete := ToRemove r;
                             Route := FromRIBRoute r false |}]))
          as (k & tail & Hk & Htail & Hw & Hnil).
        exists (S k), tail. split; [simpl; lia|].
        unfold add_events in Hw, Htail, Hnil. simpl in Hw, Htail, Hnil.
        unfold current in *. simpl in *.
        split; [exact Htail|]. split.
        -- rewrite Hw. unfold add_events. simpl. by rewrite <- app_assoc.
        -- intros Hn. destruct (Hnil Hn) as [-> ->]. done.
Qed.

(** X7: whatever the context and the stream do, [onUpdate] only ever
    sends a prefix of the batch, in order, on the current stream, and
    then at most one [CloseAndRecv], as its last act; it writes no
    slot, allocates nothing and leaves the registry alone.  It returns
    nil only when the whole batch was sent, and whenever it has closed
    the stream the error it returns carries [errStreamClosed]. *)
Theorem onUpdate_shape holder target env routes w :
  exists k tail,
    k <= length routes /\
    (tail = [] \/
     tail = [EvCloseAndRecv (current holder w)] /\
     exists e, (onUpdate holder target env routes w).1 = Some e /\
               Is e errStreamClosed = true) /\
    (onUpdate holder target env routes w).2
    = add_events w (sends (current holder w) target (take k routes) ++ tail) /\
    ((onUpdate holder target env routes w).1 = None ->
     k = length routes /\ tail = []).
Proof. apply onUpdate_from_shape. Qed.

(** ** The reconnector and the supervisor, further *)

Lemma decided_by_lt ws n k : decided_by ws n k -> n < length ws.
Proof. intros (Hn & _). by eapply lookup_lt_Some. Qed.

(** X8: all that the reconnector does is to call [FeedRIB] on the
    import's own context, once per tick it waits for and never more
    often than it was woken.  When it gives up or is still waiting it
    has allocated nothing and written no slot; when it succeeds, the
    last of its calls is the one that gave the stream now in the
    slot. *)
Theorem reconnectStream_attempts client ctx slot ws w :
  exists m,
    m <= length ws /\
    emitted w (reconnectStream client ctx slot ws w).2
    = replicate m (EvFeedRIB client ctx) /\
    imports (reconnectStream client ctx slot ws w).2 = imports w /\
    tasks (reconnectStream client ctx slot ws w).2 = tasks w /\
    ((reconnectStream client ctx slot ws w).1 = Some true ->
       1 <= m /\
       next_ptr (reconnectStream client ctx slot ws w).2 = S (next_ptr w) /\
       slots (reconnectStream client ctx slot ws w).2 !! slot
       = Some (next_ptr w)) /\
    ((reconnectStream client ctx slot ws w).1 <> Some true ->
       next_ptr (reconnectStream client ctx slot ws w).2 = next_ptr w /\
       slots (reconnectStream client ctx slot ws w).2 = slots w).
Proof.
  destruct (reconnectStream_cases client ctx slot ws w)
    as [(n & Hd & Hr)|[(n & k & Hk & Hd & Hr)|(Hf & Hr)]]; rewrite Hr; simpl.
  - exists (S n). apply decided_by_lt in Hd.
    split; [lia|]. split; [by apply emitted_app|].
    split; [done|]. split; [done|]. split; [|done].
    intros _. split; [lia|]. split; [done|]. apply lookup_insert_eq.
  - exists n. apply decided_by_lt in Hd.
    split; [lia|]. split; [by apply emitted_app|]. by repeat split.
  - exists (length ws).
    split; [lia|]. split; [by apply emitted_app|]. by repeat split.
Qed.

Lemma loop_returned ctx holder st env rest w w' :
  loop_body ctx holder st env w = (Returned, w') ->
  loop ctx holder st (env :: rest) w = (true, w').
Proof. intros H. simpl. unfold mbind, Eff_bind. by rewrite H. Qed.

Lemma runBirdImportLoop_returned ctx holder envs w w' c k :
  cancel holder = Some c -> conn holder = Some k ->
  loop ctx holder (mkLoop true 0) envs w = (true, w') ->
  runBirdImportLoop ctx holder envs w
  = (true, add_events w' [EvCancel AtCleanup c; EvConnClose AtCleanup k]).
Proof.
  intros Hc Hk H. unfold runBirdImportLoop, mbind, Eff_bind. rewrite H.
  unfold cleanup. rewrite Hc, Hk. eff_simpl.
  unfold add_events. simpl. by rewrite <- app_assoc.
Qed.

(** X9: a supervisor whose preflight finds the context done or the quit
    channel closed, or the connection in [Shutdown], returns at once:
    no [FeedRIB], no reconnector even when the stream is down, no
    reader run.  From a fresh supervisor the only things that happen
    are the deferred [cancel] and [conn.Close]. *)
Theorem supervisor_preflight_stops ctx holder st env rest w c k :
  cancel holder = Some c ->
  conn holder = Some k ->
  preflight env <> ChoseElse \/ connState env = Shutdown ->
  loop ctx holder st (env :: rest) w = (true, w) /\
  runBirdImportLoop ctx holder (env :: rest) w
  = (true, add_events w [EvCancel AtCleanup c; EvConnClose AtCleanup k]).
Proof.
  intros Hc Hk Hstop.
  assert (forall st', loop_body ctx holder st' env w = (Returned, w)) as Hb.
  { intros st'. unfold loop_body. rewrite Hk.
    destruct Hstop as [Hp| ->]; destruct (preflight env); done. }
  split; [by apply loop_returned|].
  apply runBirdImportLoop_returned; try done. by apply loop_returned.
Qed.

Lemma supervisor_preflight_stops_witness :
  runBirdImportLoop 2 Example.first [Example.iter_quit; Example.iter_clean]
    Example.installed_once
  = (true, add_events Example.installed_once
             [EvCancel AtCleanup 2; EvConnClose AtCleanup 1]).
Proof.
  destruct (supervisor_preflight_stops 2 Example.first (mkLoop true 0)
              Example.iter_quit [Example.iter_clean] Example.installed_once
              2 1) as (_ & H).
  - reflexivity.
  - reflexivity.
  - left. discriminate.
  - exact H.
Defined.

Lemma reconnectStream_aborted client ctx slot ws n k w :
  k = WakeQuit \/ k = WakeCtx ->
  decided_by ws n k ->
  reconnectStream client ctx slot ws w
  = (Some false, add_events w (replicate n (EvFeedRIB client ctx))).
Proof.
  intros Hk Hd.
  destruct (reconnectStream_cases client ctx slot ws w)
    as [(n' & Hd' & Hr)|[(n' & k' & Hk' & Hd' & Hr)|(Hf & Hr)]].
  - destruct (decided_by_unique _ _ _ _ _ Hd Hd') as [_ ->].
    by destruct Hk.
  - by destruct (decided_by_unique _ _ _ _ _ Hd Hd') as [-> _].
  - by destruct (Forall_failed_not_decided _ _ _ Hf Hd).
Qed.

Lemma reconnectStream_succeeded client ctx slot ws n w :
  decided_by ws n (WakeTick None) ->
  reconnectStream client ctx slot ws w
  = (Some true,
     mkWorld (imports w) (<[slot := next_ptr w]> (slots w))
       (S (next_ptr w)) (tasks w)
       (trace w ++ replicate (S n) (EvFeedRIB client ctx))).
Proof.
  intros Hd.
  destruct (reconnectStream_cases client ctx slot ws w)
    as [(n' & Hd' & Hr)|[(n' & k' & Hk' & Hd' & Hr)|(Hf & Hr)]].
  - by destruct (decided_by_unique _ _ _ _ _ Hd Hd') as [-> _].
  - destruct (decided_by_unique _ _ _ _ _ Hd Hd') as [_ <-].
    by destruct Hk'.
  - by destruct (Forall_failed_not_decided _ _ _ Hf Hd).
Qed.

(** X10: when the stream is down and the reconnector is stopped by the
    context or the quit signal, the supervisor returns without
    starting the reader: what it did in that iteration are the failed
    [FeedRIB] calls and nothing else. *)
Theorem supervisor_reconnect_aborted ctx holder st env rest w client n k :
  streamActive st = false ->
  preflight env = ChoseElse ->
  conn holder = Some client ->
  connState env <> Shutdown ->
  k = WakeQuit \/ k = WakeCtx ->
  decided_by (wakes env) n k ->
  loop ctx holder st (env :: rest) w
  = (true, add_events w (replicate n (EvFeedRIB client ctx))) /\
  (forall e, e ∈ emitted w (loop ctx holder st (env :: rest) w).2 ->
             e = EvFeedRIB client ctx).
Proof.
  intros Hs Hp Hc Hstate Hk Hd.
  assert (loop ctx holder st (env :: rest) w
          = (true, add_events w (replicate n (EvFeedRIB client ctx)))) as ->.
  { apply loop_returned. unfold loop_body. rewrite Hp, Hc, Hs.
    destruct (connState env); try done;
      unfold mbind at 1; unfold Eff_bind; cbv iota;
      by rewrite (reconnectStream_aborted _ _ _ _ n k). }
  split; [done|]. simpl.
  rewrite (emitted_app _ _ (replicate n (EvFeedRIB client ctx))) by done.
  intros e He. by apply elem_of_replicate in He as [-> _].
Qed.

Lemma supervisor_reconnect_aborted_witness :
  loop 2 Example.first {| streamActive := false; runBackoff := 1 |}
       [Example.iter_reconnect_aborted; Example.iter_clean]
       Example.installed_once
  = (true, add_events Example.installed_once [EvFeedRIB 1 2]).
Proof.
  destruct (supervisor_reconnect_aborted 2 Example.first (mkLoop false 1)
              Example.iter_reconnect_aborted [Example.iter_clean]
              Example.installed_once 1 1 WakeCtx) as (H & _).
  - reflexivity.
  - reflexivity.
  - reflexivity.
  - discriminate.
  - by right.
  - split; [reflexivity|]. split.
    + intros [e He]. discriminate.
    + repeat constructor. by exists (Opaque 40).
  - exact H.
Defined.

Lemma current_after_reconnect holder w c t tr :
  current holder
    (mkWorld (imports w) (<[currentStream holder := next_ptr w]> (slots w))
       c t tr) = next_ptr w.
Proof. unfold current. simpl. by rewrite lookup_insert_eq. Qed.

(** X11: after a failure the reader is not started again on the old
    stream.  When the stream is down and the reconnector succeeds, the
    successful [FeedRIB] comes before [export.Run], the slot that
    [onUpdate] reads names the new stream from then on, and a
    [CloseAndRecv] that follows a new failure of the reader is made on
    that new stream. *)
Theorem supervisor_reconnects_before_run ctx holder st env w client n :
  streamActive st = false ->
  preflight env = ChoseElse ->
  conn holder = Some client ->
  connState env <> Shutdown ->
  decided_by (wakes env) n (WakeTick None) ->
  exists tail,
    emitted w (loop_body ctx holder st env w).2
    = replicate (S n) (EvFeedRIB client ctx)
        ++ EvRun (export holder) ctx :: tail /\
    current holder (loop_body ctx holder st env w).2 = next_ptr w /\
    (forall s, EvCloseAndRecv s ∈ tail -> s = next_ptr w) /\
    (forall c x, EvFeedRIB c x ∉ tail).
Proof.
  intros Hs Hp Hc Hstate Hd.
  pose proof (reconnectStream_succeeded client ctx (currentStream holder)
                (wakes env) n w Hd) as Hrec.
  rewrite (loop_body_reaches_run ctx holder st env w _
             (conj Hp (ex_intro _ client
                (conj Hc (conj Hstate (or_intror (conj Hs Hrec))))))).
  cbv zeta. rewrite current_after_reconnect.
  destruct (runResult env) as [err|].
  2:{ exists []. split; [apply emitted_app; simpl; by rewrite <- app_assoc|].
      split; [apply current_after_reconnect|].
      split; [intros s Hin|intros c x Hin]; by apply elem_of_nil in Hin. }
  destruct (Is err Canceled || Is err DeadlineExceeded).
  { exists []. split; [apply emitted_app; simpl; by rewrite <- app_assoc|].
    split; [apply current_after_reconnect|].
    split; [intros s Hin|intros c x Hin]; by apply elem_of_nil in Hin. }
  set (tail := (if Is err errStreamClosed then []
                else [EvCloseAndRecv (next_ptr w)])
               ++ [EvSleep (if idle env then 0 else runBackoff st)]).
  assert ((forall s, EvCloseAndRecv s ∈ tail -> s = next_ptr w) /\
          (forall c x, EvFeedRIB c x ∉ tail)) as [Ht1 Ht2].
  { subst tail. destruct (Is err errStreamClosed); simpl;
      (split; [intros s Hin|intros c x Hin]);
      repeat (apply elem_of_cons in Hin as [Hin|Hin];
              [try discriminate; try (by injection Hin as ->)|]);
      by apply elem_of_nil in Hin. }
  exists tail.
  destruct (sleep env); simpl;
    (split; [apply emitted_app; simpl; by rewrite <- !app_assoc|]);
    (split; [apply current_after_reconnect|]); done.
Qed.

Lemma supervisor_reconnects_before_run_witness :
  emitted Example.installed_once
    (loop_body 2 Example.first {| streamActive := false; runBackoff := 1 |}
       Example.iter_reconnects Example.installed_once).2
  = [EvFeedRIB 1 2; EvFeedRIB 1 2; EvRun 5 2; EvCloseAndRecv 6; EvSleep 1].
Proof.
  destruct (supervisor_reconnects_before_run 2 Example.first (mkLoop false 1)
              Example.iter_reconnects Example.installed_once 1 1)
    as (tail & H & _).
  - reflexivity.
  - reflexivity.
  - reflexivity.
  - discriminate.
  - split; [reflexivity|]. split.
    + intros [e He]. discriminate.
    + repeat constructor. by exists (Opaque 40).
  - reflexivity.
Defined.

Lemma sleeps_app l1 l2 : sleeps (l1 ++ l2) = sleeps l1 ++ sleeps l2.
Proof. apply omap_app. Qed.

Lemma sleeps_feed n c x : sleeps (replicate n (EvFeedRIB c x)) = [].
Proof. induction n; [done|]. simpl. done. Qed.

(** One retrying iteration: it ends at the end of the loop body with
    the stream marked down, after one sleep. *)
Lemma loop_body_retry ctx holder st env w client :
  conn holder = Some client ->
  retrying env ->
  exists w' evs,
    loop_body ctx holder st env w
    = (Again (mkLoop false (S (if idle env then 0 else runBackoff st))), w') /\
    trace w' = trace w ++ evs /\
    sleeps evs = [if idle env then 0 else runBackoff st].
Proof.
  intros Hc (Hp & Hstate & (n & Hd) & (err & Hr & Hi1 & Hi2) & Hsl).
  assert (exists w1 pre, reaches_run ctx holder st env w w1 /\
                         trace w1 = trace w ++ pre /\ sleeps pre = [])
    as (w1 & pre & Hreach & Hpre & Hsp).
  { destruct (streamActive st) eqn:Hs.
    - exists w, []. split; [|by rewrite app_nil_r].
      split; [done|]. exists client. repeat split; try done. by left.
    - exists (mkWorld (imports w)
                (<[currentStream holder := next_ptr w]> (slots w))
                (S (next_ptr w)) (tasks w)
                (trace w ++ replicate (S n) (EvFeedRIB client ctx))),
        (replicate (S n) (EvFeedRIB client ctx)).
      split; [|split; [reflexivity|apply sleeps_feed]].
      split; [done|]. exists client. repeat split; try done. right.
      split; [done|]. by apply reconnectStream_succeeded. }
  rewrite (loop_body_reaches_run _ _ _ _ _ _ Hreach).
  cbv zeta. rewrite Hr, Hi1, Hi2, Hsl. simpl.
  eexists _, _. split; [reflexivity|]. simpl. rewrite Hpre.
  split; [by rewrite <- !app_assoc|].
  rewrite !sleeps_app, Hsp. simpl.
  by destruct (Is err errStreamClosed).
Qed.

Lemma backoff_trace_seq b envs :
  Forall (fun env => idle env = false) envs ->
  backoff_trace b envs = seq b (length envs) /\
  backoff_after b envs = b + length envs.
Proof.
  intros H. revert b. induction H as [|env rest He _ IH]; intros b.
  - simpl. split; [done|lia].
  - simpl. rewrite He. destruct (IH (S b)) as [-> ->]. split; [done|lia].
Qed.

(** X12: the outer backoff grows with every retry and is reset by the
    idle rule.  Over a run of iterations that each end in a retry, the
    supervisor sleeps once per iteration, for the interval that
    [NextBackOff] gives since the last reset: interval 0, 1, 2, ... in
    a row when no reader run lasted more than ten minutes, and interval
    0 again right after one that did.  The stream is marked down for
    the iteration that follows. *)
Theorem supervisor_backoff_progression ctx holder client envs :
  forall st rest w,
  conn holder = Some client ->
  Forall retrying envs ->
  exists w' evs,
    loop ctx holder st (envs ++ rest) w
    = loop ctx holder
        {| streamActive := match envs with
                           | [] => streamActive st
                           | _ => false
                           end;
           runBackoff := backoff_after (runBackoff st) envs |} rest w' /\
    trace w' = trace w ++ evs /\
    sleeps evs = backoff_trace (runBackoff st) envs /\
    (Forall (fun env => idle env = false) envs ->
     sleeps evs = seq (runBackoff st) (length envs)).
Proof.
  induction envs as [|env envs IH]; intros st rest w Hc Hall.
  - exists w, []. destruct st. simpl. rewrite app_nil_r.
    repeat split; done.
  - apply Forall_cons in Hall as [Henv Hall].
    destruct (loop_body_retry ctx holder st env w client Hc Henv)
      as (w1 & e1 & Hb & Ht1 & Hs1).
    destruct (IH (mkLoop false (S (if idle env then 0 else runBackoff st)))
                rest w1 Hc Hall) as (w2 & e2 & Hl & Ht2 & Hs2 & _).
    exists w2, (e1 ++ e2).
    assert (sleeps (e1 ++ e2) = backoff_trace (runBackoff st) (env :: envs))
      as Hsl by (rewrite sleeps_app, Hs1, Hs2; done).
    split; [|split; [by rewrite Ht2, Ht1, app_assoc|split; [done|]]].
    + change ((env :: envs) ++ rest) with (env :: (envs ++ rest)).
      simpl. unfold mbind, Eff_bind. rewrite Hb. rewrite Hl.
      by destruct envs.
    + intros Hidle. rewrite Hsl.
      by destruct (backoff_trace_seq (runBackoff st) (env :: envs) Hidle).
Qed.

Lemma supervisor_backoff_progression_witness :
  exists w' evs,
    loop 2 Example.first {| streamActive := true; runBackoff := 0 |}
         ([Example.iter_reconnects; Example.iter_reconnects]
          ++ [Example.iter_quit]) Example.installed_once
    = loop 2 Example.first {| streamActive := false; runBackoff := 2 |}
           [Example.iter_quit] w' /\
    trace w' = trace Example.installed_once ++ evs /\
    sleeps evs = [0; 1].
Proof.
  destruct (supervisor_backoff_progression 2 Example.first 1
              [Example.iter_reconnects; Example.iter_reconnects]
              (mkLoop true 0) [Example.iter_quit] Example.installed_once)
    as (w' & evs & H1 & H2 & H3 & _).
  - reflexivity.
  - assert (retrying Example.iter_reconnects) as Hr.
    { split; [reflexivity|]. split; [discriminate|]. split.
      - exists 1. split; [reflexivity|]. split.
        + intros [e He]. discriminate.
        + repeat constructor. by exists (Opaque 40).
      - split; [|reflexivity]. exists (Opaque 41). by repeat split. }
    apply Forall_cons_2; [exact Hr|].
    apply Forall_cons_2; [exact Hr|]. apply Forall_nil_2.
  - exists w', evs. split; [exact H1|]. split; [exact H2|exact H3].
Defined.

(** ** The reader's error, from the forwarder to the supervisor *)

Lemma Is_wraps e' e t : wraps e' e -> Is e t = true -> Is e' t = true.
Proof.
  induction 1 as [|msg e' e _ IH]; [done|]. intros Ht. simpl.
  rewrite (IH Ht). apply orb_true_r.
Qed.

Lemma onUpdate_cancel_result holder target env routes k r ctxErr w :
  routes !! k = Some r ->
  passes env k ->
  ctx_Err (ctxAt env k) = Some ctxErr ->
  (onUpdate holder target env routes w).1
  = Join [Some ctxErr; closeErr env; Some errStreamClosed].
Proof.
  intros Hk Hpass Hc. unfold onUpdate.
  rewrite (onUpdate_from_pass holder target env k 0 routes w).
  - rewrite (drop_S _ _ _ Hk). simpl. by rewrite Hc.
  - apply lookup_lt_Some in Hk. lia.
  - intros i Hi. by apply Hpass.
Qed.

(** X13: no double close.  When [onUpdate] finds the context done it
    closes the stream itself; if the reader hands the error it got
    back to the supervisor, as it is or under any number of [%w]
    wrappers, the supervisor returns: it calls no [CloseAndRecv] of
    its own, does not sleep and does not retry. *)
Theorem cancelled_update_stops_supervisor
    ctx holder st env rest w w1 target uenv routes k r wu e e' :
  reaches_run ctx holder st env w w1 ->
  routes !! k = Some r ->
  passes uenv k ->
  ctxAt uenv k <> Active ->
  (onUpdate holder target uenv routes wu).1 = Some e ->
  wraps e' e ->
  runResult env = Some e' ->
  Is e' errStreamClosed = true /\
  loop ctx holder st (env :: rest) w
  = (true, add_events w1 [EvRun (export holder) ctx]).
Proof.
  intros Hreach Hk Hpass Hdone He Hw Hrun.
  assert (exists ctxErr, ctx_Err (ctxAt uenv k) = Some ctxErr /\
                         (ctxErr = Canceled \/ ctxErr = DeadlineExceeded))
    as (ctxErr & Hc & Hkind).
  { destruct (ctxAt uenv k); [done| |]; eexists; eauto. }
  rewrite (onUpdate_cancel_result _ _ _ _ k r ctxErr) in He by done.
  assert (Is e ctxErr = true /\ Is e errStreamClosed = true) as [H1 H2].
  { unfold Join in He. destruct (closeErr uenv); simpl in He;
      injection He as <-; split; apply Is_Joined_member;
      repeat constructor. }
  split; [by eapply Is_wraps|].
  apply loop_returned.
  rewrite (loop_body_reaches_run _ _ _ _ _ _ Hreach). cbv zeta.
  rewrite Hrun.
  assert (Is e' Canceled || Is e' DeadlineExceeded = true) as ->; [|done].
  apply orb_true_iff.
  destruct Hkind as [-> | ->]; [left|right]; by eapply Is_wraps.
Qed.

Lemma cancelled_update_stops_supervisor_witness :
  loop 2 Example.first {| streamActive := true; runBackoff := 0 |}
       [with_run Example.iter_clean
          (Some (Wrapf "bird export: "
                   (Joined [Canceled; Opaque 21; errStreamClosed])));
        Example.iter_clean]
       Example.installed_once
  = (true, add_events Example.installed_once [EvRun 5 2]).
Proof.
  destruct (cancelled_update_stops_supervisor 2 Example.first (mkLoop true 0)
              (with_run Example.iter_clean
                 (Some (Wrapf "bird export: "
                          (Joined [Canceled; Opaque 21; errStreamClosed]))))
              [Example.iter_clean] Example.installed_once
              Example.installed_once Example.target Example.upd_cancelled
              [Example.routeA; Example.routeB] 1 Example.routeB
              Example.installed_once
              (Joined [Canceled; Opaque 21; errStreamClosed])
              (Wrapf "bird export: "
                 (Joined [Canceled; Opaque 21; errStreamClosed])))
    as (_ & H).
  - split; [reflexivity|]. exists 1. split; [reflexivity|].
    split; [discriminate|]. left. split; reflexivity.
  - reflexivity.
  - intros i Hi. assert (i = 0) as -> by lia. split; reflexivity.
  - discriminate.
  - reflexivity.
  - apply wraps_more, wraps_here.
  - reflexivity.
  - exact H.
Defined.

(** X14: message wrappers do not change what the supervisor does.  An
    iteration whose reader returns an error under any number of
    [fmt.Errorf] wrappers with [%w] (such as the one [onUpdate] puts
    around a failed [Send]) runs exactly as with the bare error: the
    same decision to return or retry, the same calls. *)
Theorem supervisor_sees_through_wrappers ctx holder st env e' e w :
  wraps e' e ->
  loop_body ctx holder st (with_run env (Some e')) w
  = loop_body ctx holder st (with_run env (Some e)) w.
Proof.
  induction 1 as [|msg e' e _ IH]; [done|]. rewrite <- IH.
  unfold loop_body. simpl. done.
Qed.

Lemma supervisor_sees_through_wrappers_witness :
  loop_body 2 Example.first {| streamActive := true; runBackoff := 0 |}
    (with_run Example.iter_clean
       (Some (Wrapf "send BIRD route update for 10.0.2.0/24 failed: "
                (Opaque 9)))) Example.installed_once
  = loop_body 2 Example.first {| streamActive := true; runBackoff := 0 |}
      (with_run Example.iter_clean (Some (Opaque 9))) Example.installed_once.
Proof.
  apply (supervisor_sees_through_wrappers 2 Example.first (mkLoop true 0)
           Example.iter_clean).
  apply wraps_more, wraps_here.
Defined.

(** ** The ledger invariant *)

Lemma closes_app s k l1 l2 :
  closes s k (l1 ++ l2) = closes s k l1 + closes s k l2.
Proof. apply count_app. Qed.

(** What neutral events add to the counts: nothing, but for the cancel
    and the close of an object in the window. *)
Lemma neutral_counts lo hi evs :
  Forall (neutral lo hi) evs ->
  (forall s p, s <> AtStreamFail \/ p < lo \/ hi <= p -> cancels s p evs = 0) /\
  (forall s p, s <> AtNoSockets \/ p < lo \/ hi <= p -> closes s p evs = 0) /\
  count is_lock evs = 0 /\ count is_unlock evs = 0 /\
  count is_store evs = 0 /\ count is_go evs = 0 /\
  (forall K h, EvStore K h ∉ evs).
Proof.
  induction 1 as [|e evs He _ (IH1 & IH2 & IH3 & IH4 & IH5 & IH6 & IH7)].
  - repeat split; try done. intros K h Hin. by apply elem_of_nil in Hin.
  - split; [|split; [|split; [|split; [|split; [|split]]]]].
    + intros s p Hsp. unfold cancels in *. simpl. rewrite (IH1 s p Hsp).
      destruct e as [| | | | | |s' c|s' c| | | | | | |]; try done.
      simpl. destruct s', s; simpl in *; try done;
        destruct (Nat.eqb_spec c p); try done; subst;
        destruct Hsp as [?|?]; [done|lia].
    + intros s p Hsp. unfold closes in *. simpl. rewrite (IH2 s p Hsp).
      destruct e as [| | | | | |s' c|s' c| | | | | | |]; try done.
      simpl. destruct s', s; simpl in *; try done;
        destruct (Nat.eqb_spec c p); try done; subst;
        destruct Hsp as [?|?]; [done|lia].
    + simpl. rewrite IH3. by destruct e as [| | | | | |[]|[]| | | | | | |].
    + simpl. rewrite IH4. by destruct e as [| | | | | |[]|[]| | | | | | |].
    + simpl. rewrite IH5. by destruct e as [| | | | | |[]|[]| | | | | | |].
    + simpl. rewrite IH6. by destruct e as [| | | | | |[]|[]| | | | | | |].
    + intros K h [Heq|Hin]%elem_of_cons; [by subst e|]. by apply (IH7 K h).
Qed.

Lemma paired_mono h n n' tr evs lo hi :
  paired h n tr -> n <= n' -> n <= lo ->
  Forall (neutral lo hi) evs ->
  paired h n' (tr ++ evs).
Proof.
  intros (k & Hc & Hx & Hlt & H1 & H2) Hn Hlo Hev.
  destruct (neutral_counts lo hi evs Hev) as (N1 & N2 & _).
  exists k. rewrite cancels_app, closes_app, H1, H2.
  rewrite N1 by (right; left; lia). rewrite N2 by (right; left; lia).
  repeat split; try done. lia.
Qed.

Lemma Ledger_neutral w w' evs :
  Ledger w ->
  imports w' = imports w -> tasks w' = tasks w ->
  next_ptr w <= next_ptr w' ->
  trace w' = trace w ++ evs ->
  Forall (neutral (next_ptr w) (next_ptr w')) evs ->
  Ledger w'.
Proof.
  intros [L1 L2 L3 L4 L5 L6 L7 L8] Hi Ht Hn He Hev.
  destruct (neutral_counts _ _ evs Hev) as (N1 & N2 & N3 & N4 & N5 & N6 & N7).
  split; rewrite ?Hi, ?Ht, ?He.
  - intros K h HK.
    apply (paired_mono h (next_ptr w) _ _ _ (next_ptr w) (next_ptr w'));
      eauto.
  - intros t Hin. destruct (L2 t Hin) as [Hp Hc]. split; [|done].
    apply (paired_mono _ (next_ptr w) _ _ _ (next_ptr w) (next_ptr w'));
      eauto.
  - intros K h [Hin|Hin]%elem_of_app; [|by destruct (N7 K h)].
    apply (paired_mono _ (next_ptr w) _ _ _ (next_ptr w) (next_ptr w'));
      eauto.
  - intros p s Hp. rewrite cancels_app, closes_app.
    destruct (L4 p s) as [-> ->]; [lia|].
    rewrite N1 by (right; right; lia). rewrite N2 by (right; right; lia).
    done.
  - intros k. rewrite !cancels_app, !closes_app.
    destruct (L5 k) as [-> ->].
    rewrite !N1 by (by left). rewrite !N2 by (by left). done.
  - intros p. rewrite cancels_app, closes_app.
    destruct (L6 p) as [-> ->].
    rewrite N1 by (by left). rewrite N2 by (by left). done.
  - rewrite !count_app, N3, N4, N5, N6. destruct L7 as (-> & -> & ->).
    done.
  - rewrite count_app, N6. lia.
Qed.

Lemma supervisor_neutral lo hi e : supervisor_event e -> neutral lo hi e.
Proof. by destruct e. Qed.

Lemma inserts_neutral lo hi cc target routes :
  Forall (neutral lo hi) (inserts cc target routes).
Proof. induction routes; by constructor. Qed.

Lemma Ledger_init : Ledger NewModuleService.
Proof.
  split; simpl; try done.
  - intros t Hin. by apply elem_of_nil in Hin.
  - intros K h Hin. by apply elem_of_nil in Hin.
Qed.

Lemma Ledger_dialled w evs :
  Ledger w ->
  Forall (neutral (next_ptr w) (S (next_ptr w))) evs ->
  Ledger (dialled w evs).
Proof.
  intros HL Hev. eapply (Ledger_neutral w _ (EvNewClient (next_ptr w) :: evs));
    try done; simpl; [lia|]. by constructor.
Qed.

Lemma teardown_ledger old n tr :
  (forall h, old = Some h -> paired h n tr) ->
  (forall p, closes AtReplace p (teardown old)
             = cancels AtReplace (S p) (teardown old)) /\
  (forall s p, s <> AtReplace ->
     cancels s p (teardown old) = 0 /\ closes s p (teardown old) = 0) /\
  (forall p, n <= p ->
     cancels AtReplace p (teardown old) = 0 /\
     closes AtReplace p (teardown old) = 0) /\
  count is_lock (teardown old) = 0 /\ count is_unlock (teardown old) = 0 /\
  count is_store (teardown old) = 0 /\ count is_go (teardown old) = 0.
Proof.
  intros Hold. destruct old as [h|]; [|done].
  destruct (Hold h eq_refl) as (k & Hc & Hx & Hlt & _).
  unfold teardown, cancels, closes. rewrite Hc, Hx. simpl.
  split; [done|]. split; [|split; [|done]].
  - intros s p Hs. by destruct s.
  - intros p Hp. destruct p as [|p]; [lia|].
    destruct (Nat.eqb_spec k p), (Nat.eqb_spec k (S p)); try lia;
      rewrite ?andb_false_r; simpl; done.
Qed.

Lemma installed_closes s k cc key w :
  closes s k (trace (installed cc key w))
  = closes s k (trace w) + closes s k (teardown (imports w !! key)).
Proof.
  unfold installed, closes. simpl. rewrite count_app. simpl.
  rewrite count_app. simpl. lia.
Qed.

Lemma installed_count p cc key w :
  count p (trace (installed cc key w))
  = count p (trace w) + (if p EvLock then 1 else 0)
    + count p (teardown (imports w !! key))
    + (if p (EvStore key (new_holder cc w)) then 1 else 0)
    + (if p (EvGo (next_ptr w) (new_holder cc w)) then 1 else 0)
    + (if p EvUnlock then 1 else 0)
    + (if p (EvFeedRIB cc (next_ptr w)) then 1 else 0).
Proof.
  unfold installed. simpl. rewrite count_app. simpl.
  rewrite count_app. simpl. lia.
Qed.

Lemma Ledger_installed cc key w :
  Ledger w -> next_ptr w = S cc ->
  closes AtNoSockets cc (trace w) = 0 ->
  Ledger (installed cc key w).
Proof.
  intros HL Hn Hcc. pose proof HL as [L1 L2 L3 L4 L5 L6 L7 L8].
  destruct (teardown_ledger (imports w !! key) (next_ptr w) (trace w))
    as (T1 & T2 & T3 & T4 & T5 & T6 & T7).
  { intros h Hh. by apply (L1 key). }
  assert (forall h, paired h (next_ptr w) (trace w) ->
            paired h (next_ptr w + 4) (trace (installed cc key w))) as Hold.
  { intros h (k & Hc & Hx & Hlt & H1 & H2). exists k.
    rewrite installed_cancels, installed_closes, H1, H2.
    destruct (T2 AtStreamFail (S k)) as [-> _]; [done|].
    destruct (T2 AtNoSockets k) as [_ ->]; [done|].
    repeat split; try done. lia. }
  assert (paired (new_holder cc w) (next_ptr w + 4)
            (trace (installed cc key w))) as Hnew.
  { exists cc. rewrite installed_cancels, installed_closes, Hcc.
    destruct (L4 (S cc) AtStreamFail) as [-> _]; [lia|].
    destruct (T2 AtStreamFail (S cc)) as [-> _]; [done|].
    destruct (T2 AtNoSockets cc) as [_ ->]; [done|].
    unfold new_holder. simpl. rewrite Hn. repeat split; try done. lia. }
  split.
  - intros K h. unfold installed at 1. simpl.
    destruct (decide (key = K)) as [->|Hne].
    + rewrite lookup_insert_eq. intros [= <-]. exact Hnew.
    + rewrite lookup_insert_ne by done. intros HK. apply Hold. by apply (L1 K).
  - intros t. unfold installed at 1. simpl.
    intros [Hin|Hin]%elem_of_app.
    + destruct (L2 t Hin) as [Hp Hc]. split; [by apply Hold|done].
    + apply list_elem_of_singleton in Hin as ->. simpl. split; [exact Hnew|done].
  - intros K h Hin. unfold installed in Hin. simpl in Hin.
    apply elem_of_app in Hin as [Hin|Hin]; [apply Hold; by apply (L3 K)|].
    apply elem_of_cons in Hin as [Hin|Hin]; [done|].
    apply elem_of_cons in Hin as [Hin|Hin]; [done|].
    apply elem_of_app in Hin as [Hin|Hin].
    + exfalso. destruct (imports w !! key) as [h0|] eqn:H0.
      * destruct (L1 key h0 H0) as (k & Hc & Hx & _).
        unfold teardown in Hin. rewrite Hc, Hx in Hin. simpl in Hin.
        apply elem_of_cons in Hin as [Hin|Hin]; [done|].
        apply elem_of_cons in Hin as [Hin|Hin]; [done|].
        by apply elem_of_nil in Hin.
      * by apply elem_of_nil in Hin.
    + apply elem_of_cons in Hin as [Hin|Hin].
      * injection Hin as -> ->. exact Hnew.
      * apply elem_of_cons in Hin as [Hin|Hin]; [done|].
        apply elem_of_cons in Hin as [Hin|Hin]; [done|].
        by apply elem_of_nil in Hin.
  - intros p s Hp. simpl in Hp.
    rewrite installed_cancels, installed_closes.
    destruct (L4 p s) as [-> ->]; [lia|].
    destruct (decide (s = AtReplace)) as [->|Hs].
    + destruct (T3 p) as [-> ->]; [lia|done].
    + destruct (T2 s p Hs) as [-> ->]. done.
  - intros k. rewrite !installed_cancels, !installed_closes.
    destruct (L5 k) as [-> ->]. rewrite T1.
    destruct (T2 AtCleanup k) as [_ ->]; [done|].
    destruct (T2 AtCleanup (S k)) as [-> _]; [done|]. done.
  - intros p. rewrite installed_cancels, installed_closes.
    destruct (L6 p) as [-> ->].
    destruct (T2 AtNoSockets p) as [-> _]; [done|].
    destruct (T2 AtStreamFail p) as [_ ->]; [done|]. done.
  - rewrite !installed_count, T4, T5, T6, T7. simpl.
    destruct L7 as (-> & -> & ->). repeat split; lia.
  - rewrite installed_count, T7. unfold installed at 1. simpl.
    rewrite length_app. simpl. lia.
Qed.

Lemma Ledger_SetupConfig req env w : Ledger w -> Ledger (SetupConfig req env w).2.
Proof.
  intros HL.
  destruct (SetupConfig_outcome req env w)
    as [err Hu|cfg err Hu Hc|cfg j r err Hu Hc Hr Hb Hj|cfg err Hu Hc Hi Hf
       |cfg Hu Hc Hi Hf Hs|cfg err Hu Hc Hi Hf Hs Hfe|cfg Hu Hc Hi Hf Hs Hfe];
    simpl; try done.
  - apply Ledger_dialled; [done|]. apply inserts_neutral.
  - apply Ledger_dialled; [done|]. apply Forall_app_2; [apply inserts_neutral|].
    by constructor.
  - apply Ledger_dialled; [done|]. apply Forall_app_2; [apply inserts_neutral|].
    apply Forall_cons_2; [done|]. apply Forall_cons_2; [simpl; lia|].
    apply Forall_nil_2.
  - eapply (Ledger_neutral w); [exact HL|done|done|simpl; lia|simpl; reflexivity|].
    simpl. apply Forall_cons_2; [done|].
    apply Forall_app_2; [apply inserts_neutral|].
    apply Forall_cons_2; [done|]. apply Forall_cons_2; [done|].
    apply Forall_cons_2; [simpl; lia|]. apply Forall_nil_2.
  - apply Ledger_installed.
    + apply Ledger_dialled; [done|].
      apply Forall_app_2; [apply inserts_neutral|]. by constructor.
    + done.
    + simpl. rewrite closes_app.
      destruct (ledger_fresh w HL (next_ptr w) AtNoSockets) as [_ ->]; [lia|].
      destruct (neutral_counts 0 0
                  (EvNewClient (next_ptr w)
                   :: inserts (next_ptr w)
                        (mkTarget (req_ConfigName req) (req_Instance req))
                        (Routes cfg)
                   ++ [EvFlushRoutes (next_ptr w)
                         (mkTarget (req_ConfigName req) (req_Instance req))]))
        as (_ & N2 & _).
      { apply Forall_cons_2; [done|].
        apply Forall_app_2; [apply inserts_neutral|]. by constructor. }
      rewrite N2; [done|]. right. right. lia.
Qed.

Lemma Ledger_drop_task w i :
  Ledger w -> Ledger (with_tasks w (delete i (tasks w))).
Proof.
  intros [L1 L2 L3 L4 L5 L6 L7 L8]. split; simpl; try done.
  - intros t Hin. apply L2. by eapply list_elem_of_delete_inv.
  - pose proof (sublist_length _ _ (sublist_delete (tasks w) i)). lia.
Qed.

Lemma Ledger_set_task w i t st :
  Ledger w -> tasks w !! i = Some t ->
  Ledger (with_tasks w (<[i := mkTask (t_ctx t) (t_holder t) st]> (tasks w))).
Proof.
  intros [L1 L2 L3 L4 L5 L6 L7 L8] Ht. split; simpl; try done.
  - intros t' (j & Hj)%list_elem_of_lookup.
    destruct (decide (j = i)) as [->|Hne].
    + rewrite list_lookup_insert_eq in Hj
        by (by apply lookup_lt_Some in Ht).
      injection Hj as <-. simpl. apply (L2 t).
      apply list_elem_of_lookup; eauto.
    + rewrite list_lookup_insert_ne in Hj by done.
      apply L2. apply list_elem_of_lookup; eauto.
  - by rewrite length_insert.
Qed.

Lemma Ledger_cleanup w i t k :
  Ledger w -> tasks w !! i = Some t ->
  conn (t_holder t) = Some k ->
  Ledger (add_events (with_tasks w (delete i (tasks w)))
            [EvCancel AtCleanup (S k); EvConnClose AtCleanup k]).
Proof.
  intros HL Ht Hk. pose proof HL as [L1 L2 L3 L4 L5 L6 L7 L8].
  assert (S k < next_ptr w) as Hlt.
  { destruct (L2 t) as [(k' & Hk' & _ & ? & _) _];
      [apply list_elem_of_lookup; eauto|].
    rewrite Hk in Hk'. by injection Hk' as <-. }
  assert (forall s p, s <> AtCleanup ->
            cancels s p [EvCancel AtCleanup (S k); EvConnClose AtCleanup k] = 0
            /\ closes s p [EvCancel AtCleanup (S k); EvConnClose AtCleanup k]
               = 0) as Hoth.
  { intros s p Hs. unfold cancels, closes. simpl. by destruct s. }
  assert (forall h, paired h (next_ptr w) (trace w) ->
            paired h (next_ptr w)
              (trace w ++ [EvCancel AtCleanup (S k); EvConnClose AtCleanup k]))
    as Hold.
  { intros h (k0 & Hc & Hx & Hl & H1 & H2). exists k0.
    rewrite cancels_app, closes_app, H1, H2.
    destruct (Hoth AtStreamFail (S k0)) as [-> _]; [done|].
    destruct (Hoth AtNoSockets k0) as [_ ->]; [done|]. done. }
  split; simpl.
  - intros K h HK. apply Hold. by apply (L1 K).
  - intros t' Hin. apply list_elem_of_delete_inv in Hin.
    destruct (L2 t' Hin) as [Hp Hc]. split; [by apply Hold|done].
  - intros K h [Hin|Hin]%elem_of_app; [apply Hold; by apply (L3 K)|].
    apply elem_of_cons in Hin as [Hin|Hin]; [done|].
    apply elem_of_cons in Hin as [Hin|Hin]; [done|].
    by apply elem_of_nil in Hin.
  - intros p s Hp. rewrite cancels_app, closes_app.
    destruct (L4 p s Hp) as [-> ->].
    destruct (decide (s = AtCleanup)) as [->|Hs].
    + unfold cancels, closes. simpl. destruct p as [|p]; [lia|].
      destruct (Nat.eqb_spec k p), (Nat.eqb_spec k (S p)); try lia;
        rewrite ?andb_false_r; simpl; done.
    + by destruct (Hoth s p Hs) as [-> ->].
  - intros k0. rewrite !cancels_app, !closes_app.
    destruct (L5 k0) as [-> ->].
    destruct (Hoth AtReplace k0) as [_ ->]; [done|].
    destruct (Hoth AtReplace (S k0)) as [-> _]; [done|].
    split; [done|]. unfold cancels, closes. simpl. done.
  - intros p. rewrite cancels_app, closes_app.
    destruct (L6 p) as [-> ->].
    destruct (Hoth AtNoSockets p) as [-> _]; [done|].
    destruct (Hoth AtStreamFail p) as [_ ->]; [done|]. done.
  - rewrite !count_app. simpl. destruct L7 as (-> & -> & ->).
    repeat split; lia.
  - rewrite count_app. simpl.
    pose proof (sublist_length _ _ (sublist_delete (tasks w) i)). lia.
Qed.

Lemma Ledger_supervise i env w : Ledger w -> Ledger (supervise i env w).2.
Proof.
  intros HL. destruct (tasks w !! i) as [t|] eqn:Ht.
  - destruct (ledger_tasks w HL t) as [(k & Hk & Hc & _) _];
      [apply list_elem_of_lookup; eauto|].
    destruct (supervise_cases i env w t (S k) k Ht Hc Hk)
      as (w1 & Hfr & [Hr|[Hr|(st & Hr)]]); rewrite Hr;
      assert (Ledger w1) as HL1
        by (destruct Hfr as (Hi & Hts & Hn & evs & He & Hev);
            apply (Ledger_neutral w w1 evs); try done;
            eapply Forall_impl; [exact Hev|];
            intros e; apply supervisor_neutral);
      assert (tasks w1 !! i = Some t) as Ht1
        by (destruct Hfr as (_ & -> & _); done).
    + by apply (Ledger_cleanup w1 i t).
    + by apply Ledger_drop_task.
    + by apply Ledger_set_task.
  - unfold supervise, get_task. unfold mbind, Eff_bind. by rewrite Ht.
Qed.

Lemma Ledger_exec w a : Ledger w -> Ledger (exec w a).
Proof.
  intros HL. destruct a as [req env|i env]; unfold exec, act.
  - unfold mbind, Eff_bind.
    pose proof (Ledger_SetupConfig req env w HL) as H.
    by destruct (SetupConfig req env w).
  - by apply Ledger_supervise.
Qed.

(** Every world that a schedule of setup calls and supervisor
    iterations leads to keeps the ledger. *)
Lemma Ledger_run acts : Ledger (run acts).
Proof.
  induction acts as [|a acts IH] using rev_ind; [apply Ledger_init|].
  rewrite run_snoc. by apply Ledger_exec.
Qed.

(** ** Connections and contexts over whole histories *)

Lemma cancel_calls_sites c tr :
  cancel_calls c tr
  = cancels AtNoSockets c tr + cancels AtStreamFail c tr
    + cancels AtReplace c tr + cancels AtCleanup c tr.
Proof.
  unfold cancel_calls, cancels.
  induction tr as [|e tr IH]; [done|]. simpl. rewrite IH.
  destruct e as [| | | | | |s c'|s c'| | | | | | |]; simpl; try lia.
  destruct s; simpl; destruct (Nat.eqb c' c); simpl; lia.
Qed.

Lemma close_calls_sites k tr :
  close_calls k tr
  = closes AtNoSockets k tr + closes AtStreamFail k tr
    + closes AtReplace k tr + closes AtCleanup k tr.
Proof.
  unfold close_calls, closes.
  induction tr as [|e tr IH]; [done|]. simpl. rewrite IH.
  destruct e as [| | | | | |s c'|s c'| | | | | | |]; simpl; try lia.
  destruct s; simpl; destruct (Nat.eqb c' k); simpl; lia.
Qed.

(** X15: for every holder that was ever stored in the registry,
    [conn.Close] is invoked exactly as often as [cancel], site by site:
    at most once by a replacement and at most once by the cleanup of
    its supervisor, and never by an exit of a setup that installs
    nothing.  So its connection is closed at most twice, and as often
    as its context is cancelled. *)
Theorem stored_holder_teardown acts K h k c :
  EvStore K h ∈ trace (run acts) ->
  conn h = Some k -> cancel h = Some c ->
  closes AtReplace k (trace (run acts))
  = cancels AtReplace c (trace (run acts)) /\
  closes AtCleanup k (trace (run acts))
  = cancels AtCleanup c (trace (run acts)) /\
  closes AtReplace k (trace (run acts)) <= 1 /\
  closes AtCleanup k (trace (run acts)) <= 1 /\
  closes AtNoSockets k (trace (run acts)) = 0 /\
  closes AtStreamFail k (trace (run acts)) = 0 /\
  cancels AtNoSockets c (trace (run acts)) = 0 /\
  cancels AtStreamFail c (trace (run acts)) = 0 /\
  close_calls k (trace (run acts)) = cancel_calls c (trace (run acts)) /\
  close_calls k (trace (run acts)) <= 2.
Proof.
  intros Hin Hk Hc.
  pose proof (Ledger_run acts) as HL. pose proof (Inv_run acts) as HI.
  destruct (ledger_stored _ HL K h Hin) as (k' & Hk' & Hc' & _ & H1 & H2).
  rewrite Hk in Hk'. injection Hk' as <-.
  rewrite Hc in Hc'. injection Hc' as ->.
  destruct (ledger_pair _ HL k) as [P1 P2].
  destruct (ledger_never _ HL (S k)) as [N1 _].
  destruct (ledger_never _ HL k) as [_ N2].
  pose proof (replace_once _ HI (S k)) as R.
  pose proof (cleanup_once _ HI (S k)) as Cl.
  rewrite close_calls_sites, cancel_calls_sites.
  rewrite P1, P2, H1, H2, N1, N2. repeat split; try done; lia.
Qed.

Lemma stored_holder_teardown_witness :
  close_calls 1 (trace (run Example.replacement))
  = cancel_calls 2 (trace (run Example.replacement)) /\
  close_calls 1 (trace (run Example.replacement)) <= 2.
Proof.
  destruct (stored_holder_teardown Example.replacement (mkKey "a" 1)
              Example.first 1 2)
    as (_ & _ & _ & _ & _ & _ & _ & _ & H1 & H2).
  - apply list_elem_of_In. vm_compute.
    repeat first [left; reflexivity | right].
  - reflexivity.
  - reflexivity.
  - split; [exact H1|exact H2].
Defined.

(** X16: an import that is in the registry while its supervisor is
    still running has never had its context cancelled or its
    connection closed, by any part of the service. *)
Theorem live_import_untouched acts K h t c k :
  imports (run acts) !! K = Some h ->
  t ∈ tasks (run acts) -> t_holder t = h ->
  cancel h = Some c -> conn h = Some k ->
  cancel_calls c (trace (run acts)) = 0 /\
  close_calls k (trace (run acts)) = 0.
Proof.
  intros HK Ht Hth Hc Hk.
  pose proof (Ledger_run acts) as HL. pose proof (Inv_run acts) as HI.
  destruct (ledger_holders _ HL K h HK) as (k' & Hk' & Hc' & _ & H1 & H2).
  rewrite Hk in Hk'. injection Hk' as <-.
  rewrite Hc in Hc'. injection Hc' as ->.
  destruct (holders_wf _ HI K h HK) as (c1 & k1 & Hc1 & _ & _ & R).
  rewrite Hc in Hc1. injection Hc1 as <-.
  destruct (tasks_wf _ HI t Ht) as (c2 & k2 & Hc2 & _ & _ & Cl).
  rewrite Hth, Hc in Hc2. injection Hc2 as <-.
  destruct (ledger_pair _ HL k) as [P1 P2].
  destruct (ledger_never _ HL (S k)) as [N1 _].
  destruct (ledger_never _ HL k) as [_ N2].
  rewrite close_calls_sites, cancel_calls_sites.
  rewrite P1, P2, H1, H2, N1, N2, R, Cl. done.
Qed.

Lemma live_import_untouched_witness :
  cancel_calls 2 (trace Example.installed_once) = 0 /\
  close_calls 1 (trace Example.installed_once) = 0.
Proof.
  apply (live_import_untouched [ActSetup Example.req Example.env_ok]
           (mkKey "a" 1) Example.first
           (mkTask 2 Example.first (mkLoop true 0)) 2 1).
  - reflexivity.
  - apply list_elem_of_In. vm_compute. left. reflexivity.
  - reflexivity.
  - reflexivity.
  - reflexivity.
Defined.

(** X17: in every reachable state the mutex is free: each [Lock] has
    its [Unlock].  Each critical section stores exactly one holder and
    starts exactly one supervisor, and there are never more supervisors
    than holders stored. *)
Theorem critical_sections_balanced acts :
  count is_unlock (trace (run acts)) = count is_lock (trace (run acts)) /\
  count is_store (trace (run acts)) = count is_lock (trace (run acts)) /\
  count is_go (trace (run acts)) = count is_lock (trace (run acts)) /\
  length (tasks (run acts)) <= count is_store (trace (run acts)).
Proof.
  pose proof (Ledger_run acts) as HL.
  destruct (ledger_locks _ HL) as (H1 & H2 & H3).
  pose proof (ledger_pool _ HL) as H4.
  repeat split; try done. lia.
Qed.

(** X18: the dereferences of [holder.cancel] and [holder.conn] in the
    supervisor's cleanup never meet nil: in every reachable state each
    holder of the registry and of a running supervisor has both a
    cancel function and a connection, and no history has a panic. *)
Theorem holders_never_nil acts :
  count is_panic (trace (run acts)) = 0 /\
  (forall K h, imports (run acts) !! K = Some h ->
     is_Some (cancel h) /\ is_Some (conn h)) /\
  (forall t, t ∈ tasks (run acts) ->
     is_Some (cancel (t_holder t)) /\ is_Some (conn (t_holder t)) /\
     cancel (t_holder t) = Some (t_ctx t)).
Proof.
  pose proof (Ledger_run acts) as HL. pose proof (Inv_run acts) as HI.
  split; [apply (no_panic _ HI)|]. split.
  - intros K h HK.
    destruct (ledger_holders _ HL K h HK) as (k & -> & -> & _). eauto.
  - intros t Ht.
    destruct (ledger_tasks _ HL t Ht) as [(k & Hk & Hc & _) Hctx].
    rewrite Hk. rewrite Hc at 1. eauto.
Qed.

(** X19: two targets never share a connection or a context: the
    holders that the registry has under different keys differ in their
    [cancel] and in their [conn]. *)
Theorem targets_share_nothing acts K K' h h' :
  imports (run acts) !! K = Some h ->
  imports (run acts) !! K' = Some h' ->
  K <> K' ->
  cancel h <> cancel h' /\ conn h <> conn h'.
Proof.
  intros HK HK' Hne.
  pose proof (Ledger_run acts) as HL. pose proof (Inv_run acts) as HI.
  assert (cancel h <> cancel h') as Hc.
  { intros Heq. apply Hne. by apply (holders_inj _ HI K K' h h'). }
  split; [exact Hc|].
  destruct (ledger_holders _ HL K h HK) as (k & Hk & Hx & _).
  destruct (ledger_holders _ HL K' h' HK') as (k' & Hk' & Hx' & _).
  rewrite Hk, Hk'. intros [= ->]. apply Hc. by rewrite Hx, Hx'.
Qed.

Lemma targets_share_nothing_witness :
  cancel Example.first <> cancel Example.second /\
  conn Example.first <> conn Example.second.
Proof.
  apply (targets_share_nothing Example.two_targets
           (mkKey "a" 1) (mkKey "a" 2)).
  - reflexivity.
  - reflexivity.
  - discriminate.
Defined.

(** ** What a failed flush does to the supervisor *)

(** X20: [onFlush] issues one [FlushRoutes] and returns nil exactly
    when the RPC succeeds; a failure comes back wrapped with [%w].
    When [export.Run] returns that error and the RPC error is no
    context error, the supervisor treats it like any stream failure:
    since the wrapper is marked as stream-closed only if the RPC error
    is, the supervisor closes the current stream itself, then sleeps
    for the backoff interval and retries unless the sleep is
    interrupted. *)
Theorem flush_failure_is_retried
    ctx holder st env w w1 target client res err wf :
  reaches_run ctx holder st env w w1 ->
  res = Some err ->
  Is err Canceled = false -> Is err DeadlineExceeded = false ->
  runResult env = (onFlush target client res wf).1 ->
  emitted wf (onFlush target client res wf).2 = [EvFlushRoutes client target] /\
  slots (onFlush target client res wf).2 = slots wf /\
  (exists e', runResult env = Some e' /\ Unwrap e' = Some err /\
              Is e' errStreamClosed = Is err errStreamClosed) /\
  (loop_body ctx holder st env w).2
  = add_events w1
      ([EvRun (export holder) ctx]
       ++ (if Is err errStreamClosed then []
           else [EvCloseAndRecv (current holder w1)])
       ++ [EvSleep (if idle env then 0 else runBackoff st)]) /\
  (loop_body ctx holder st env w).1
  = match sleep env with
    | ChoseElse =>
        Again (mkLoop false (S (if idle env then 0 else runBackoff st)))
    | _ => Returned
    end.
Proof.
  intros Hreach -> Hc Hd Hrun.
  unfold onFlush in *. unfold mbind, Eff_bind, emit, mret, Eff_ret in *.
  simpl in *.
  split; [by apply emitted_app|]. split; [done|].
  split; [eexists; split; [exact Hrun|]; by split|].
  rewrite (loop_body_reaches_run _ _ _ _ _ _ Hreach). cbv zeta.
  rewrite Hrun. simpl. rewrite Hc, Hd. simpl.
  destruct (Is err errStreamClosed), (sleep env); simpl;
    unfold add_events; simpl; rewrite <- ?app_assoc; done.
Qed.

Lemma flush_failure_is_retried_witness :
  (loop_body 2 Example.first {| streamActive := true; runBackoff := 0 |}
     (with_run Example.iter_reader_fails
        (Some (Wrapf "flush BIRD routes failed: " (Opaque 14))))
     Example.installed_once).2
  = add_events Example.installed_once
      [EvRun 5 2; EvCloseAndRecv 3; EvSleep 0].
Proof.
  destruct (flush_failure_is_retried 2 Example.first (mkLoop true 0)
              (with_run Example.iter_reader_fails
                 (Some (Wrapf "flush BIRD routes failed: " (Opaque 14))))
              Example.installed_once Example.installed_once
              Example.target 1 (Some (Opaque 14)) (Opaque 14)
              Example.installed_once)
    as (_ & _ & _ & H & _).
  - split; [reflexivity|]. exists 1. split; [reflexivity|].
    split; [discriminate|]. left. split; reflexivity.
  - reflexivity.
  - reflexivity.
  - reflexivity.
  - reflexivity.
  - exact H.
Defined.

(** ** The DSCP module *)

Lemma closeAgents_releases env : forall agents idx,
  dscp.releases (dscp.closeAgents env idx agents)
  = map dscp.CallAgentClose agents.
Proof.
  induction agents as [|a rest IH]; intros idx; [done|].
  unfold dscp.releases in *. simpl. f_equal.
  rewrite List.filter_app, IH.
  by destruct (dscp.agentClose env idx).
Qed.

Lemma closeAgents_warnings env i e : forall agents idx,
  dscp.CallWarnAgent i e ∈ dscp.closeAgents env idx agents <->
  idx <= i < idx + length agents /\ dscp.agentClose env i = Some e.
Proof.
  induction agents as [|a rest IH]; intros idx; simpl.
  - split; [by intros ?%elem_of_nil|lia].
  - rewrite elem_of_cons, elem_of_app, IH. split.
    + intros [?|[Hin|[Hr He]]]; [done| |split; [lia|done]].
      destruct (dscp.agentClose env idx) as [err|] eqn:Hcl.
      * apply list_elem_of_singleton in Hin. injection Hin as -> ->.
        split; [lia|done].
      * by apply elem_of_nil in Hin.
    + intros [Hr He]. right.
      destruct (decide (i = idx)) as [->|Hne].
      * left. rewrite He. by apply list_elem_of_singleton.
      * right. split; [lia|done].
Qed.

Lemma closeAgents_no_detach env s e : forall agents idx,
  (dscp.CallDetach s ∉ dscp.closeAgents env idx agents) /\
  (dscp.CallWarnDetach e ∉ dscp.closeAgents env idx agents).
Proof.
  induction agents as [|a rest IH]; intros idx; simpl.
  - split; by intros ?%elem_of_nil.
  - destruct (IH (S idx)) as [IH1 IH2].
    split; intros [?|Hin]%elem_of_cons; try done;
      apply elem_of_app in Hin as [Hin|Hin]; try done;
      destruct (dscp.agentClose env idx);
      try (by apply elem_of_nil in Hin);
      by apply list_elem_of_singleton in Hin.
Qed.

Lemma Close_releases env m :
  dscp.releases (dscp.Close env m).2
  = map dscp.CallAgentClose (dscp.agents m) ++ [dscp.CallDetach (dscp.shm m)].
Proof.
  unfold dscp.Close. simpl. unfold dscp.releases.
  rewrite List.filter_app.
  change (List.filter dscp.is_release (dscp.closeAgents env 0 (dscp.agents m)))
    with (dscp.releases (dscp.closeAgents env 0 (dscp.agents m))).
  rewrite closeAgents_releases. simpl. by destruct (dscp.detach env).
Qed.

(** X21: [Close] never fails and never stops early.  Whatever the
    single [agent.Close()] calls and [Detach] return, it closes every
    agent of the module once, in the order of the slice, then detaches
    from the shared memory once; it logs one warning, with the index,
    for each agent whose close failed and one for a failed detach, and
    returns nil. *)
Theorem Close_releases_everything env m :
  (dscp.Close env m).1 = None /\
  dscp.releases (dscp.Close env m).2
  = map dscp.CallAgentClose (dscp.agents m) ++ [dscp.CallDetach (dscp.shm m)] /\
  (forall i e, dscp.CallWarnAgent i e ∈ (dscp.Close env m).2 <->
     i < length (dscp.agents m) /\ dscp.agentClose env i = Some e) /\
  (forall e, dscp.CallWarnDetach e ∈ (dscp.Close env m).2 <->
     dscp.detach env = Some e).
Proof.
  split; [done|]. split; [apply Close_releases|].
  unfold dscp.Close. simpl. split.
  - intros i e. rewrite elem_of_app, closeAgents_warnings. split.
    + intros [[Hr He]|Hin]; [split; [lia|done]|].
      apply elem_of_cons in Hin as [?|Hin]; [done|].
      destruct (dscp.detach env); [|by apply elem_of_nil in Hin].
      by apply list_elem_of_singleton in Hin.
    + intros [Hr He]. left. split; [lia|done].
  - intros e. rewrite elem_of_app. split.
    + intros [Hin|Hin].
      * by destruct (closeAgents_no_detach env 0 e (dscp.agents m) 0)
          as [_ H].
      * apply elem_of_cons in Hin as [?|Hin]; [done|].
        destruct (dscp.detach env) as [e0|]; [|by apply elem_of_nil in Hin].
        apply list_elem_of_singleton in Hin. by injection Hin as ->.
    + intros ->. right. apply elem_of_cons. right.
      by apply list_elem_of_singleton.
Qed.

(** X22: when [NewDSCPModule] fails it returns the error of
    [AttachSharedMemory] or of [AgentsAttach] as it is, builds no
    service and releases nothing: if the shared memory had been
    attached and the agents were refused, the mapping is not detached
    before the function returns. *)
Theorem NewDSCPModule_failure env cfg log err :
  (dscp.NewDSCPModule env cfg log).1 = inr err ->
  (dscp.attachSharedMemory env = inr err /\
   (dscp.NewDSCPModule env cfg log).2
   = [dscp.CallAttachSharedMemory (dscp.MemoryPath cfg)]
   \/
   exists shm, dscp.attachSharedMemory env = inl shm /\
     dscp.agentsAttach env = inr err /\
     last (dscp.NewDSCPModule env cfg log).2
     = Some (dscp.CallAgentsAttach shm "dscp" (dscp.numaIndices env)
               (dscp.MemoryRequirements cfg))) /\
  dscp.releases (dscp.NewDSCPModule env cfg log).2 = [] /\
  (forall a, dscp.CallNewDscpService a ∉ (dscp.NewDSCPModule env cfg log).2).
Proof.
  unfold dscp.NewDSCPModule.
  destruct (dscp.attachSharedMemory env) as [shm|e1];
    [destruct (dscp.agentsAttach env) as [ags|e2]|]; simpl; intros [= <-].
  - split; [right; by exists shm|]. split; [done|].
    intros a Hin. repeat (apply elem_of_cons in Hin as [?|Hin]; [done|]).
    by apply elem_of_nil in Hin.
  - split; [by left|]. split; [done|].
    intros a Hin. repeat (apply elem_of_cons in Hin as [?|Hin]; [done|]).
    by apply elem_of_nil in Hin.
Qed.

Lemma NewDSCPModule_failure_witness :
  dscp.releases
    (dscp.NewDSCPModule Example.dscp_no_agents Example.dscp_cfg []).2 = [].
Proof.
  destruct (NewDSCPModule_failure Example.dscp_no_agents Example.dscp_cfg []
              (Opaque 12)) as (_ & H & _).
  - reflexivity.
  - exact H.
Defined.

(** X23: a module that [NewDSCPModule] has built holds the mapping
    that [AttachSharedMemory] returned and the agents that
    [AgentsAttach] returned for the name dscp, the NUMA indices of the
    mapping and the configured memory requirement; its endpoint is the
    configured one; and [Close] releases exactly these: one
    [agent.Close()] per attached agent, then one [Detach] of the
    mapping, whatever fails on the way. *)
Theorem module_lifecycle env cenv cfg log m calls :
  dscp.NewDSCPModule env cfg log = (inl m, calls) ->
  dscp.attachSharedMemory env = inl (dscp.shm m) /\
  dscp.agentsAttach env = inl (dscp.agents m) /\
  dscp.Endpoint m = dscp.cfg_Endpoint cfg /\
  dscp.log m = log ++ [("module", "dscppb.DscpService")] /\
  calls = [dscp.CallAttachSharedMemory (dscp.MemoryPath cfg);
           dscp.CallNumaIndices (dscp.shm m);
           dscp.CallDebugw (dscp.numaIndices env)
             (dscp.MemoryRequirements cfg);
           dscp.CallAgentsAttach (dscp.shm m) "dscp" (dscp.numaIndices env)
             (dscp.MemoryRequirements cfg);
           dscp.CallNewDscpService (dscp.agents m)] /\
  dscp.releases calls = [] /\
  (dscp.Close cenv m).1 = None /\
  dscp.releases (dscp.Close cenv m).2
  = map dscp.CallAgentClose (dscp.agents m) ++ [dscp.CallDetach (dscp.shm m)].
Proof.
  unfold dscp.NewDSCPModule.
  destruct (dscp.attachSharedMemory env) as [shm|e1];
    [destruct (dscp.agentsAttach env) as [ags|e2]|]; intros [= <- <-].
  repeat split. apply Close_releases.
Qed.

Lemma module_lifecycle_witness :
  dscp.releases
    (dscp.Close Example.dscp_close_fails
       {| dscp.cfg := Example.dscp_cfg; dscp.shm := 1; dscp.agents := [2; 3];
          dscp.dscpService := 4;
          dscp.log := [("module", "dscppb.DscpService")] |}).2
  = [dscp.CallAgentClose 2; dscp.CallAgentClose 3; dscp.CallDetach 1].
Proof.
  destruct (module_lifecycle Example.dscp_attached Example.dscp_close_fails
              Example.dscp_cfg []
              {| dscp.cfg := Example.dscp_cfg; dscp.shm := 1;
                 dscp.agents := [2; 3]; dscp.dscpService := 4;
                 dscp.log := [("module", "dscppb.DscpService")] |}
              [dscp.CallAttachSharedMemory "/dev/hugepages/yanet";
               dscp.CallNumaIndices 1;
               dscp.CallDebugw [0%N; 1%N] 16777216;
               dscp.CallAgentsAttach 1 "dscp" [0%N; 1%N] 16777216;
               dscp.CallNewDscpService [2; 3]])
    as (_ & _ & _ & _ & _ & _ & _ & H).
  - reflexivity.
  - exact H.
Defined.
